(** * transcript.py: segment-level transcription and profanity labelling

    A shallow embedding of [src/transcript.py] and the properties of its
    specification.  Text is modelled as [string] over the ASCII range (the
    range on which [str.lower], [str.strip] and the regex classes [\w] and
    [\b] act character by character), sets as [gset], dictionaries as
    [gmap], and the effects of the script (file system, temporary files,
    console, the speech engine) by a state-and-exception monad over an
    explicit [world]. *)

From Stdlib Require Import ZArith Ascii String List Bool Lia.
From stdpp Require Import base option gmap strings list fin_maps pretty.

Local Open Scope string_scope.
Local Open Scope Z_scope.

(** ** Characters and strings *)

Module Str.

Definition code (c : ascii) : N := N_of_ascii c.

Definition between (lo hi : N) (c : ascii) : bool :=
  ((lo <=? code c) && (code c <=? hi))%N.

Definition is_upper : ascii -> bool := between 65 90.
Definition is_lower : ascii -> bool := between 97 122.
Definition is_digit : ascii -> bool := between 48 57.

(** The regex class [\w]: letters, digits and the underscore. *)
Definition is_word (c : ascii) : bool :=
  is_upper c || is_lower c || is_digit c || (code c =? 95)%N.

(** [str.isspace] on one character: tab to carriage return, the four
    separators 0x1c-0x1f and the space. *)
Definition is_space (c : ascii) : bool :=
  between 9 13 c || between 28 31 c || (code c =? 32)%N.

Definition lower_char (c : ascii) : ascii :=
  if is_upper c then ascii_of_N (code c + 32) else c.

(** [str.lower] *)
Fixpoint lower (s : string) : string :=
  match s with
  | EmptyString => EmptyString
  | String c s' => String (lower_char c) (lower s')
  end.

Fixpoint lstrip (s : string) : string :=
  match s with
  | EmptyString => EmptyString
  | String c s' => if is_space c then lstrip s' else s
  end.

(** Drops the trailing white space: a character survives when it is not
    a space or something after it survives. *)
Fixpoint rstrip (s : string) : string :=
  match s with
  | EmptyString => EmptyString
  | String c s' =>
      match rstrip s' with
      | EmptyString => if is_space c then EmptyString else String c EmptyString
      | r => String c r
      end
  end.

(** [str.strip] *)
Definition strip (s : string) : string := rstrip (lstrip s).

Fixpoint all_chars (p : ascii -> bool) (s : string) : bool :=
  match s with
  | EmptyString => true
  | String c s' => p c && all_chars p s'
  end.

End Str.

(** ** The regular expressions the classifier builds

    [contains_profane_words] only ever builds the pattern
    [r'\b' + re.escape(word) + r'\b']: a sequence of word-boundary
    assertions and literal characters.  Such a pattern has no choice
    points, so matching at a position is a single left-to-right pass. *)

Module Re.

Inductive item : Type :=
| WordBoundary            (* \b *)
| Literal (c : ascii).    (* an escaped or ordinary character *)

Definition pattern : Type := list item.

(** [re.escape]: every character of the word stands for itself. *)
Fixpoint escape (word : string) : pattern :=
  match word with
  | EmptyString => []
  | String c w => Literal c :: escape w
  end.

Definition word_before (prev : option ascii) : bool :=
  match prev with Some c => Str.is_word c | None => false end.

Definition word_after (s : string) : bool :=
  match s with String c _ => Str.is_word c | EmptyString => false end.

(** [\b] holds between a word character and a non-word character, the
    two ends of the text counting as non-word. *)
Definition at_boundary (prev : option ascii) (s : string) : bool :=
  xorb (word_before prev) (word_after s).

(** Match [pat] at the current position: [prev] is the character just
    before it and [s] the rest of the text. *)
Fixpoint match_here (pat : pattern) (prev : option ascii) (s : string) : bool :=
  match pat with
  | [] => true
  | WordBoundary :: pat' => at_boundary prev s && match_here pat' prev s
  | Literal c :: pat' =>
      match s with
      | String d s' => Ascii.eqb c d && match_here pat' (Some d) s'
      | EmptyString => false
      end
  end.

Fixpoint search_from (pat : pattern) (prev : option ascii) (s : string) : bool :=
  match_here pat prev s ||
  match s with
  | String d s' => search_from pat (Some d) s'
  | EmptyString => false
  end.

(** [re.search(pat, s)] as a truth value. *)
Definition search (pat : pattern) (s : string) : bool := search_from pat None s.

End Re.

(** ** Classifier *)

(** The pattern of line 33. *)
Definition word_pattern (word : string) : Re.pattern :=
  ([Re.WordBoundary] ++ Re.escape word ++ [Re.WordBoundary])%list.

Definition contains_profane_words (text : string) (profane_words : gset string) : bool :=
  let text := Str.lower text in
  existsb (fun word => Re.search (word_pattern word) text) (elements profane_words).

(** The label of a segment (line 65). *)
Definition label_of (text : string) (profane_words : gset string) : Z :=
  if contains_profane_words text profane_words then 1 else 0.

(** *** The whole words of a text, as the specification speaks of them *)

Module Words.




End Words.


(** ** Exceptions *)

Inductive exn : Type :=
| FileNotFoundError
| FileExistsError
| PermissionError
| IsADirectoryError
| NotADirectoryError
| UnicodeDecodeError
| CouldntDecodeError      (* pydub: the file is not decodable audio *)
| OSError                 (* moviepy: the media file cannot be read *)
| RuntimeError
| ValueError
| AttributeError.

#[global] Instance exn_eq_dec : EqDecision exn.
Proof. solve_decision. Defined.

(** A call either returns a value or raises. *)
Inductive outcome (A : Type) : Type :=
| Return (a : A)
| Raise (e : exn).
Arguments Return {A} a.
Arguments Raise {A} e.

(** ** Numbers: [range] and the formatting of seconds *)

Module Py.

(** The number of elements of [range(lo, hi, step)] for a positive
    step, as CPython computes it. *)
Definition len_of_range (lo hi step : Z) : Z :=
  if lo <? hi then (hi - lo - 1) / step + 1 else 0.

(** [range(start, stop, step)], read to the end. *)
Definition range (start stop step : Z) : outcome (list Z) :=
  if step =? 0 then Raise ValueError
  else
    let n := if 0 <? step then len_of_range start stop step
             else len_of_range stop start (- step) in
    Return ((fun k => start + k * step) <$> seqZ 0 n).

(** [a / b] rounded to the nearest integer, ties to even ([0 <= a], [0 < b]). *)
Definition div_rne (a b : Z) : Z :=
  let q := a / b in
  let r := a mod b in
  if 2 * r <? b then q
  else if b <? 2 * r then q + 1
  else if Z.even q then q else q + 1.

(** [2^k <= n / d], for positive [n] and [d]. *)
Definition ge_pow2 (n d k : Z) : bool :=
  if 0 <=? k then d * 2 ^ k <=? n else d <=? n * 2 ^ (- k).

(** True division [n / d] of two ints ([0 <= n], [0 < d]): the binary64
    number nearest to the quotient, given exactly as a fraction.  The
    quotient is taken in the normal range of binary64, which holds for
    every length in milliseconds that an audio stream can have. *)
Definition true_divide (n d : Z) : Z * Z :=
  if n =? 0 then (0, 1)
  else
    let e := Z.log2 n - Z.log2 d in
    let k := if ge_pow2 n d e then e else e - 1 in
    let s := k - 52 in
    if 0 <=? s then (div_rne n (d * 2 ^ s) * 2 ^ s, 1)
    else (div_rne (n * 2 ^ (- s)) d, 2 ^ (- s)).

(** [format(x, '.1f')] of a non-negative binary64 number given as a
    fraction: the decimal with one fractional digit nearest to it,
    ties to even. *)
Definition format_1f (x : Z * Z) : string :=
  let t := div_rne (10 * fst x) (snd x) in
  pretty (t / 10) +:+ "." +:+ pretty (t mod 10).

End Py.

(** [f"{ms / 1000:.1f}s"] without the unit. *)
Definition seconds_1f (ms : Z) : string := Py.format_1f (Py.true_divide ms 1000).

(** ** Audio

    A decoded audio stream is addressed by the millisecond, as pydub's
    [AudioSegment] is: one frame per millisecond. *)

Abbreviation AudioSegment := (list Z) (only parsing).

Module Audio.

(** [len(audio)], in milliseconds. *)
Definition len (a : AudioSegment) : Z := Z.of_nat (length a).

(** [audio[start:stop]]: both ends are clamped to the length. *)
Definition slice (a : AudioSegment) (start stop : Z) : AudioSegment :=
  let start := Z.min start (len a) in
  let stop := Z.min stop (len a) in
  take (Z.to_nat (stop - start)) (drop (Z.to_nat start) a).

End Audio.

(** The loop of [split_audio] (lines 45-49) on a decoded stream. *)
Definition chunks_of (audio : AudioSegment) (chunk_length_ms : Z)
  : outcome (list (Z * AudioSegment)) :=
  match Py.range 0 (Audio.len audio) chunk_length_ms with
  | Raise e => Raise e
  | Return starts =>
      Return ((fun i => (i, Audio.slice audio i (i + chunk_length_ms))) <$> starts)
  end.


(** [ceil(d / w)] for a positive [w]. *)
Definition ceil_div (d w : Z) : Z := (d + w - 1) / w.

(** ** The world the script runs in *)

(** A path is either one the user names or the name of a temporary file;
    [tempfile] draws names that collide with no other path. *)
Inductive path : Type :=
| Named (name : string)
| Temp (serial : nat).

#[global] Instance path_eq_dec : EqDecision path.
Proof. solve_decision. Defined.

#[global] Instance path_countable : Countable path.
Proof.
  refine (inj_countable'
            (fun p => match p with Named s => inl s | Temp n => inr n end)
            (fun x => match x with inl s => Named s | inr n => Temp n end) _).
  intros []; reflexivity.
Defined.

Inductive file : Type :=
| Directory
| Blank                                (* a file of zero bytes *)
| Csv (rows : list (list string))      (* a text file, as the rows [csv.reader] yields *)
| Audio (a : AudioSegment)
| Video (track : option AudioSegment). (* a media file and its audio track, if any *)

#[global] Instance file_eq_dec : EqDecision file.
Proof. solve_decision. Defined.

Inductive message : Type :=
| LexiconLoaded (csv_path : string)
| LexiconNotFound (csv_path : string)
| ExtractingAudio
| SplittingAudio
| Transcribing
| SavingResults
| Done
| ResultsSaved (output_file : string)
| PermissionDenied (output_file : string)
| ErrorMessage (e : exn).

#[global] Instance message_eq_dec : EqDecision message.
Proof. solve_decision. Defined.

Record world : Type := World {
  files : gmap path file;                    (* the file system *)
  readonly : gset string;                    (* named entries that refuse writes *)
  next_temp : nat;                           (* serial of the next temporary file *)
  console : list message;                    (* what [print] has written, oldest first *)
  engine_calls : list (AudioSegment * string)  (* the calls made to the speech engine *)
}.

Definition set_files (f : gmap path file -> gmap path file) (w : world) : world :=
  World (f (files w)) (readonly w) (next_temp w) (console w) (engine_calls w).

(** *** The monad of the script: state and exceptions *)

Definition M (A : Type) : Type := world -> outcome A * world.

Definition ret {A} (a : A) : M A := fun w => (Return a, w).

Definition bind {A B} (m : M A) (k : A -> M B) : M B :=
  fun w => match m w with
           | (Return a, w') => k a w'
           | (Raise e, w') => (Raise e, w')
           end.

Definition raise {A} (e : exn) : M A := fun w => (Raise e, w).

Definition lift {A} (o : outcome A) : M A := fun w => (o, w).

(** [try: m  except Exception as e: handler(e)] *)
Definition try_except {A} (m : M A) (handler : exn -> M A) : M A :=
  fun w => match m w with
           | (Return a, w') => (Return a, w')
           | (Raise e, w') => handler e w'
           end.

(** [try: m  finally: cleanup] *)
Definition try_finally {A} (m : M A) (cleanup : M unit) : M A :=
  fun w => match m w with
           | (r, w') =>
               match cleanup w' with
               | (Return _, w'') => (r, w'')
               | (Raise e, w'') => (Raise e, w'')
               end
           end.

Declare Scope py_scope.
Delimit Scope py_scope with py.
Notation "x <- m ;; k" := (bind m (fun x => k))
  (at level 100, m at next level, right associativity) : py_scope.
Notation "m ;; k" := (bind m (fun _ => k))
  (at level 100, right associativity) : py_scope.
Local Open Scope py_scope.

(** [for x in xs: body(x)] *)
Fixpoint for_each {A} (xs : list A) (body : A -> M unit) : M unit :=
  match xs with
  | [] => ret tt
  | x :: xs' => body x ;; for_each xs' body
  end.

(** ** Operating system and libraries *)

Module Os.

(** [posixpath.split]: the text up to the last slash, with its trailing
    slashes removed unless it consists of slashes only, and the rest. *)
Fixpoint cut_last_slash (p : string) : option (string * string) :=
  match p with
  | EmptyString => None
  | String c p' =>
      match cut_last_slash p' with
      | Some (head, tail) => Some (String c head, tail)
      | None => if Ascii.eqb c "/" then Some (String c EmptyString, p') else None
      end
  end.

Definition is_slash (c : ascii) : bool := Ascii.eqb c "/".

Fixpoint rstrip_slashes (s : string) : string :=
  match s with
  | EmptyString => EmptyString
  | String c s' =>
      match rstrip_slashes s' with
      | EmptyString => if is_slash c then EmptyString else String c EmptyString
      | r => String c r
      end
  end.

Definition split (p : string) : string * string :=
  match cut_last_slash p with
  | None => (EmptyString, p)
  | Some (head, tail) =>
      (if Str.all_chars is_slash head then head else rstrip_slashes head, tail)
  end.

Definition dirname (p : string) : string := fst (split p).

(** What the file system holds at a path; the current directory and the
    root always exist, the empty path names nothing. *)
Definition stat (w : world) (p : path) : option file :=
  match p with
  | Named s =>
      if decide (s = "") then None
      else if decide (s = "." \/ s = "/") then Some Directory
      else files w !! p
  | Temp _ => files w !! p
  end.

Definition exists_ (p : path) : M bool := fun w => (Return (bool_decide (is_Some (stat w p))), w).

Definition isdir (p : path) : M bool :=
  fun w => (Return (bool_decide (stat w p = Some Directory)), w).

(** The directory an entry lives in. *)
Definition parent (s : string) : string :=
  if decide (dirname s = "") then "." else dirname s.

(** Temporary files are the script's own and never refuse a write. *)
Definition write_protected (w : world) (p : path) : bool :=
  match p with
  | Named s => bool_decide (s ∈ readonly w)
  | Temp _ => false
  end.

(** Whether a new entry may be made at [p]. *)
Definition creatable (w : world) (p : path) : outcome unit :=
  match p with
  | Temp _ => Return tt
  | Named s =>
      if decide (s = "") then Raise FileNotFoundError
      else match stat w (Named (parent s)) with
           | None => Raise FileNotFoundError
           | Some Directory =>
               if decide (parent s ∈ readonly w) then Raise PermissionError else Return tt
           | Some _ => Raise NotADirectoryError
           end
  end.

Definition mkdir (name : string) : M unit :=
  fun w => match stat w (Named name) with
           | Some _ => (Raise FileExistsError, w)
           | None =>
               match creatable w (Named name) with
               | Raise e => (Raise e, w)
               | Return _ => (Return tt, set_files <[Named name := Directory]> w)
               end
           end.

(** The components [os.makedirs] works on: [name] split once, and split
    again when it ends in a slash. *)
Definition head_tail (name : string) : string * string :=
  let (head, tail) := split name in
  if decide (tail = "") then split head else (head, tail).

(** The body of [os.makedirs(name, exist_ok=exist_ok)], with [again] for
    its recursive call. *)
Definition makedirs_body (again : string -> M unit) (name : string) (exist_ok : bool)
  : M unit :=
  let (head, tail) := head_tail name in
  let leaf : M unit :=
    try_except (mkdir name)
      (fun e => d <- isdir (Named name) ;;
                if negb exist_ok || negb d then raise e else ret tt) in
  head_exists <- exists_ (Named head) ;;
  if bool_decide (head <> "") && bool_decide (tail <> "") && negb head_exists then
    try_except (again head)
      (fun e => if decide (e = FileExistsError) then ret tt else raise e) ;;
    if decide (tail = ".") then ret tt else leaf
  else leaf.

(** Every recursive call is on a proper prefix of [name], so [fuel] at
    least the length of [name] is never used up ([makedirs_fuel] below). *)
Fixpoint makedirs_rec (fuel : nat) (name : string) (exist_ok : bool) : M unit :=
  makedirs_body
    (match fuel with
     | O => fun _ => raise RuntimeError
     | S fuel' => fun head => makedirs_rec fuel' head exist_ok
     end)
    name exist_ok.

Definition makedirs (name : string) (exist_ok : bool) : M unit :=
  makedirs_rec (String.length name) name exist_ok.

(** [open(p, 'w')]: the file is created or emptied. *)
Definition open_write (p : path) : M unit :=
  fun w => match stat w p with
           | Some Directory => (Raise IsADirectoryError, w)
           | Some _ =>
               if write_protected w p then (Raise PermissionError, w)
               else (Return tt, set_files <[p := Blank]> w)
           | None =>
               match creatable w p with
               | Raise e => (Raise e, w)
               | Return _ => (Return tt, set_files <[p := Blank]> w)
               end
           end.

(** [os.remove(p)] *)
Definition remove (p : path) : M unit :=
  fun w => match stat w p with
           | None => (Raise FileNotFoundError, w)
           | Some Directory => (Raise IsADirectoryError, w)
           | Some _ => (Return tt, set_files (delete p) w)
           end.

Definition print (m : message) : M unit :=
  fun w => (Return tt,
            World (files w) (readonly w) (next_temp w) (console w ++ [m]) (engine_calls w)).

(** [tempfile.NamedTemporaryFile(delete=delete)] as a context manager:
    a fresh empty file, closed when the block is left and removed then
    only if [delete] is set. *)
Definition mktemp : M path :=
  fun w => (Return (Temp (next_temp w)),
            World (<[Temp (next_temp w) := Blank]> (files w)) (readonly w)
                  (S (next_temp w)) (console w) (engine_calls w)).

Definition named_temporary_file {A} (delete : bool) (block : path -> M A) : M A :=
  temp <- mktemp ;;
  try_finally (block temp)
    (if delete then
       there <- exists_ temp ;; if (there : bool) then remove temp else ret tt
     else ret tt).

End Os.

(** *** The libraries the script calls *)

Module Lib.

(** [dict(pairs)]: a later pair replaces an earlier one with the same key. *)
Definition dict {V} (pairs : list (string * V)) : gmap string V :=
  foldl (fun d kv => <[fst kv := snd kv]> d) ∅ pairs.

(** One row of [csv.DictReader]: the fields by column name, and [None]
    for the columns the row is too short to reach.  (The fields beyond
    the last column go under the key [None], which no string equals.) *)
Definition dict_row (fieldnames row : list string) : gmap string (option string) :=
  foldl (fun d key => <[key := None]> d)
        (dict (zip fieldnames (Some <$> row)))
        (drop (length row) fieldnames).

Definition nonblank (row : list string) : bool :=
  match row with [] => false | _ => true end.

(** [csv.DictReader(file)], read to the end: the first row names the
    columns, blank rows are passed over. *)
Definition dict_reader (rows : list (list string)) : list (gmap string (option string)) :=
  match rows with
  | [] => []
  | fieldnames :: rest => dict_row fieldnames <$> List.filter nonblank rest
  end.

(** The rows of the text file at [p], opened for reading. *)
Definition read_csv (p : path) : M (list (list string)) :=
  fun w => match Os.stat w p with
           | None => (Raise FileNotFoundError, w)
           | Some Directory => (Raise IsADirectoryError, w)
           | Some Blank => (Return [], w)
           | Some (Csv rows) => (Return rows, w)
           | Some _ => (Raise UnicodeDecodeError, w)
           end.

(** [csv.writer.writerow] on the file opened at [p]. *)
Definition writerow (p : path) (row : list string) : M unit :=
  fun w => match files w !! p with
           | Some Blank => (Return tt, set_files <[p := Csv [row]]> w)
           | Some (Csv rows) => (Return tt, set_files <[p := Csv (rows ++ [row])]> w)
           | _ => (Raise ValueError, w)
           end.

(** [VideoFileClip(video_path).audio.write_audiofile(out)] *)
Definition write_audiofile (video_path out : path) : M unit :=
  fun w => match Os.stat w video_path with
           | Some (Video (Some a)) => (Return tt, set_files <[out := Audio a]> w)
           | Some (Video None) => (Raise AttributeError, w)
           | _ => (Raise OSError, w)
           end.

(** [AudioSegment.from_file(p)] *)
Definition from_file (p : path) : M AudioSegment :=
  fun w => match Os.stat w p with
           | None => (Raise FileNotFoundError, w)
           | Some (Audio a) => (Return a, w)
           | Some _ => (Raise CouldntDecodeError, w)
           end.

(** [chunk.export(p, format="mp3")] *)
Definition export (chunk : AudioSegment) (p : path) : M unit :=
  Os.open_write p ;; fun w => (Return tt, set_files <[p := Audio chunk]> w).

End Lib.

(** ** The script *)

(** *** Lexicon loader *)

(** The body of the loop of lines 18-20 on one row. *)
Definition add_profanity (profane_words : gset string) (row : gmap string (option string))
  : outcome (gset string) :=
  match row !! "Profanity" with
  | None => Return profane_words                                 (* not in row *)
  | Some (Some v) => Return ({[ Str.lower (Str.strip v) ]} ∪ profane_words)
  | Some None => Raise AttributeError                            (* None.strip() *)
  end.

Fixpoint add_profanities (profane_words : gset string)
  (rows : list (gmap string (option string))) : outcome (gset string) :=
  match rows with
  | [] => Return profane_words
  | row :: rows' =>
      match add_profanity profane_words row with
      | Return profane_words' => add_profanities profane_words' rows'
      | Raise e => Raise e
      end
  end.

Definition load_profane_words_from_csv (csv_path : string) : M (gset string) :=
  there <- Os.exists_ (Named csv_path) ;;
  if (there : bool) then
    rows <- Lib.read_csv (Named csv_path) ;;
    profane_words <- lift (add_profanities ∅ (Lib.dict_reader rows)) ;;
    Os.print (LexiconLoaded csv_path) ;;
    ret profane_words
  else
    Os.print (LexiconNotFound csv_path) ;;
    ret ∅.

(** *** Extraction and segmentation *)

Definition extract_audio_from_video (video_path output_audio_path : path) : M unit :=
  Lib.write_audiofile video_path output_audio_path.

Definition split_audio (audio_path : path) (chunk_length_ms : Z)
  : M (list (Z * AudioSegment)) :=
  audio <- Lib.from_file audio_path ;;
  lift (chunks_of audio chunk_length_ms).

(** *** Transcription and labelling *)

Record record : Type := Record_ {
  segment : string;
  text : string;
  label : Z
}.

#[global] Instance record_eq_dec : EqDecision record.
Proof. solve_decision. Defined.

Definition segment_name (start_ms : Z) (chunk : AudioSegment) : string :=
  seconds_1f start_ms +:+ "s - " +:+ seconds_1f (start_ms + Audio.len chunk) +:+ "s".

Section Engine.

(** The speech engine loaded at line 10: given audio and a language it
    returns a text or fails. *)
Variable whisper_model : AudioSegment -> string -> outcome string.

(** [whisper_model.transcribe(p, language=language)['text']] *)
Definition transcribe (p : path) (language : string) : M string :=
  fun w => match Os.stat w p with
           | Some (Audio a) =>
               (whisper_model a language,
                World (files w) (readonly w) (next_temp w) (console w)
                      (engine_calls w ++ [(a, language)]))
           | _ => (Raise RuntimeError, w)
           end.

(** The loop of lines 55-74; [transcriptions] is the list built so far. *)
Fixpoint transcribe_loop (profane_words : gset string) (language : string)
  (chunks : list (Z * AudioSegment)) (transcriptions : list record) : M (list record) :=
  match chunks with
  | [] => ret transcriptions
  | (start_ms, chunk) :: chunks' =>
      temp_audio_path <- Os.named_temporary_file false (fun f => ret f) ;;
      (* Export chunk and run transcription *)
      Lib.export chunk temp_audio_path ;;
      result <- transcribe temp_audio_path language ;;
      (* Get text and label based on profane words *)
      let text := Str.strip result in
      let label := label_of text profane_words in
      let transcriptions :=
        (transcriptions ++
           [ {| segment := segment_name start_ms chunk; text := text; label := label |} ])%list in
      (* Remove temp file *)
      Os.remove temp_audio_path ;;
      transcribe_loop profane_words language chunks' transcriptions
  end.

Definition transcribe_and_label_chunks (chunks : list (Z * AudioSegment))
  (profane_words : gset string) (language : string) : M (list record) :=
  transcribe_loop profane_words language chunks [].

End Engine.

(** *** Result sink *)

Definition fieldnames : list string := ["segment"; "text"; "label"].

(** The fields [csv.DictWriter] writes for a row. *)
Definition row_fields (row : record) : list string :=
  [segment row; text row; pretty (label row)].

(** The [try] block of [save_to_csv] (lines 81-90). *)
Definition save_block (transcriptions : list record) (output_file : string) : M unit :=
  (* Ensure the directory exists and has the right permissions *)
  Os.makedirs (Os.dirname output_file) true ;;
  (* Try writing the output to the specified CSV file *)
  Os.open_write (Named output_file) ;;
  Lib.writerow (Named output_file) fieldnames ;;
  for_each transcriptions (fun row => Lib.writerow (Named output_file) (row_fields row)) ;;
  Os.print (ResultsSaved output_file).

Definition save_to_csv (transcriptions : list record) (output_file : string) : M unit :=
  try_except (save_block transcriptions output_file)
    (fun e => if decide (e = PermissionError)
              then Os.print (PermissionDenied output_file)
              else Os.print (ErrorMessage e)).

(** *** Main function *)

Section Main.

Variable whisper_model : AudioSegment -> string -> outcome string.

Definition main (video_path output_csv profanity_csv language : string) : M unit :=
  there <- Os.exists_ (Named video_path) ;;
  if negb there then raise FileNotFoundError
  else
    (* Load the CSV of profane words for the selected language *)
    profane_words <- load_profane_words_from_csv profanity_csv ;;
    Os.named_temporary_file false (fun temp_audio_file =>
      Os.print ExtractingAudio ;;
      extract_audio_from_video (Named video_path) temp_audio_file ;;
      Os.print SplittingAudio ;;
      chunks <- split_audio temp_audio_file 5000 ;;
      Os.print Transcribing ;;
      results <- transcribe_and_label_chunks whisper_model chunks profane_words language ;;
      Os.print SavingResults ;;
      save_to_csv results output_csv ;;
      Os.print Done).

End Main.

(** *** Small worlds to run the script in *)

Definition empty_world : world := World ∅ ∅ 0 [] [].

Definition world_of (entries : list (path * file)) : world :=
  World (list_to_map entries) ∅ 0 [] [].

(** An engine that hears nothing. *)
Definition silent_engine : AudioSegment -> string -> outcome string :=
  fun _ _ => Return "".


(** [ms] milliseconds of silence. *)
Definition silence (ms : Z) : AudioSegment := replicate (Z.to_nat ms) 0.

(** Twelve seconds of silence in a temporary file. *)
Definition twelve_seconds : world := world_of [(Temp 0, Audio (silence 12000))].

(** A word list whose last row stops before the [Profanity] column. *)
Definition short_row_world : world :=
  world_of [(Named "words.csv",
             Csv [["Word"; "Profanity"]; ["mild"; "Heck "]; ["strong"]])].

(** The same list with every row complete, and a list without the column. *)
Definition full_rows_world : world :=
  world_of [(Named "words.csv",
             Csv [["Word"; "Profanity"]; ["mild"; "Heck "]; []; ["strong"; " DARN"]]);
            (Named "other.csv", Csv [["Word"]; ["mild"]])].

(** [w] after [print(m)]. *)
Definition printed (m : message) (w : world) : world :=
  World (files w) (readonly w) (next_temp w) (console w ++ [m]) (engine_calls w).

(** A destination with no directory part: no slash in it. *)
Definition bare_filename (output_file : string) : Prop :=
  Str.all_chars (fun c => negb (Os.is_slash c)) output_file = true.

(** The rows of a saved report. *)
Definition report_rows (transcriptions : list record) : list (list string) :=
  fieldnames :: (row_fields <$> transcriptions).

(** What [save_to_csv] prints when its [try] block raises [e]. *)
Definition failure_message (output_file : string) (e : exn) : message :=
  if decide (e = PermissionError) then PermissionDenied output_file else ErrorMessage e.

(** Three directories, one of which refuses writes. *)
Definition locked_world : world :=
  World (list_to_map [(Named "locked", Directory); (Named "free", Directory);
                      (Named "free/sub", Directory)])
        {[ "locked" ]} 0 [] [].

(** A report of one silent segment. *)
Definition one_record : list record :=
  [ {| segment := "0.0s - 3.0s"; text := ""; label := 0 |} ].

(** The record of a chunk that the engine heard as [result]. *)
Definition record_of (profane_words : gset string) (start_ms : Z)
  (chunk : AudioSegment) (result : string) : record :=
  {| segment := segment_name start_ms chunk;
     text := Str.strip result;
     label := label_of (Str.strip result) profane_words |}.

(** The world after a turn of the transcription loop that went through:
    one more temporary name used and gone again, one more engine call. *)
Definition after_chunk (language : string) (chunk : AudioSegment) (w : world) : world :=
  World (delete (Temp (next_temp w)) (files w)) (readonly w) (S (next_temp w))
        (console w) (engine_calls w ++ [(chunk, language)]).

(** The world after a turn in which the engine raised: the chunk's
    temporary file is still there. *)
Definition failed_chunk (language : string) (chunk : AudioSegment) (w : world) : world :=
  World (<[Temp (next_temp w) := Audio chunk]> (files w)) (readonly w) (S (next_temp w))
        (console w) (engine_calls w ++ [(chunk, language)]).

Definition after_chunks (language : string) (chunks : list (Z * AudioSegment))
  (w : world) : world :=
  foldl (fun w c => after_chunk language (snd c) w) w chunks.

(** An engine that fails on every chunk. *)
Definition broken_engine : AudioSegment -> string -> outcome string :=
  fun _ _ => Raise RuntimeError.

(** An engine that hears silence as nothing and fails on anything else. *)
Definition picky_engine : AudioSegment -> string -> outcome string :=
  fun a _ => if forallb (Z.eqb 0) a then Return "" else Raise RuntimeError.

Section Heard.

Variable whisper_model : AudioSegment -> string -> outcome string.
Variable profane_words : gset string.
Variable language : string.

(** The engine answers on this chunk. *)
Definition heard (c : Z * AudioSegment) : Prop :=
  exists result, whisper_model (snd c) language = Return result.

(** What the engine makes of a chunk, nothing if it fails. *)
Definition result_of (c : Z * AudioSegment) : string :=
  match whisper_model (snd c) language with
  | Return result => result
  | Raise _ => EmptyString
  end.

(** The records of chunks, all heard. *)
Definition records_of (chunks : list (Z * AudioSegment)) : list record :=
  (fun c => record_of profane_words (fst c) (snd c) (result_of c)) <$> chunks.

End Heard.

(** The world in which [main] enters the transcription loop: the audio
    track [a] is in the temporary file made for it and three progress
    messages are out; [w] is the world after the lexicon was loaded. *)
Definition ready_world (a : AudioSegment) (w : world) : world :=
  World (<[Temp (next_temp w) := Audio a]> (files w)) (readonly w) (S (next_temp w))
        (console w ++ [ExtractingAudio; SplittingAudio; Transcribing])
        (engine_calls w).

(** A clip with three seconds of silence and a directory for the report. *)
Definition clip_world : world :=
  world_of [(Named "clip.mp4", Video (Some (silence 3000)));
            (Named "output", Directory)].

(** [ms] milliseconds of a steady tone. *)
Definition tone (ms : Z) : AudioSegment := replicate (Z.to_nat ms) 1.

(** A clip of twelve seconds: five of silence, then seven of tone. *)
Definition talk_world : world :=
  world_of [(Named "talk.mp4", Video (Some (silence 5000 ++ tone 7000)%list));
            (Named "output", Directory)].

(** A computation keeps the temporary files when no run of it changes
    what the file system holds under a temporary name. *)
Definition keeps_temps {A : Type} (m : M A) : Prop :=
  forall (w w' : world) (r : outcome A),
    m w = (r, w') -> forall n, files w' !! Temp n = files w !! Temp n.

(** The term the loader stores for a cell of the [Profanity] column. *)
Definition normalise (cell : string) : string := Str.lower (Str.strip cell).

(** The cells of the [Profanity] column, row by row. *)
Definition profanity_cells (rows : list (gmap string (option string))) : list string :=
  omap (fun row => match row !! "Profanity" with
                   | Some (Some v) => Some v
                   | _ => None
                   end) rows.

(** A data row that stops before a [Profanity] column of the header. *)
Definition short_row (fieldnames row : list string) : Prop :=
  row <> [] /\ "Profanity" ∈ drop (length row) fieldnames.

(** A string with no white space in front. *)
Definition starts_clean (s : string) : Prop :=
  match s with
  | EmptyString => True
  | String c _ => Str.is_space c = false
  end.

(** The character just before a position: the last one of [s], or [prev]
    when [s] is empty. *)
Fixpoint last_or (prev : option ascii) (s : string) : option ascii :=
  match s with
  | EmptyString => prev
  | String c s' => last_or (Some c) s'
  end.

(** [term] occurs in [s] with a word boundary at each of its ends. *)
Definition occurs_bounded (term s : string) : Prop :=
  exists pre post,
    s = pre +:+ term +:+ post /\
    Re.at_boundary (last_or None pre) (term +:+ post) = true /\
    Re.at_boundary (last_or None (pre +:+ term)) post = true.

Definition not_upper (c : ascii) : bool := negb (Str.is_upper c).


(** A computation is quiet when no run of it prints, calls the engine,
    draws a temporary name or changes a permission. *)
Definition quiet {A : Type} (m : M A) : Prop :=
  forall (w w' : world) (r : outcome A),
    m w = (r, w') ->
    console w' = console w /\ readonly w' = readonly w /\
    next_temp w' = next_temp w /\ engine_calls w' = engine_calls w.

(** The three ways [save_to_csv] ends: the line it prints. *)
Definition save_line (output_file : string) (m : message) : Prop :=
  m = ResultsSaved output_file \/ m = PermissionDenied output_file \/
  exists e, e <> PermissionError /\ m = ErrorMessage e.

(** A computation that is quiet until it either raises or returns after
    printing the one line [line]. *)
Definition prints_at_end (line : message) (m : M unit) : Prop :=
  forall (w w' : world) (r : outcome unit),
    m w = (r, w') ->
    readonly w' = readonly w /\ next_temp w' = next_temp w /\
    engine_calls w' = engine_calls w /\
    ((r = Return tt /\ console w' = (console w ++ [line])%list) \/
     (exists e, r = Raise e /\ console w' = console w)).

(** A saved row as [csv.DictReader] reads it back. *)
Definition reads_back (r : record) (d : gmap string (option string)) : Prop :=
  d !! "segment" = Some (Some (segment r)) /\
  d !! "text" = Some (Some (text r)) /\
  d !! "label" = Some (Some (pretty (label r))).

(** A clip that has no audio track. *)
Definition mute_world : world :=
  world_of [(Named "mute.mp4", Video None); (Named "output", Directory)].

(** * Properties *)

(** ** Classifier *)

Section Classifier.

Lemma contains_profane_words_spec (text : string) (profane_words : gset string) :
  contains_profane_words text profane_words = true <->
  exists word, word ∈ profane_words /\
               Re.search (word_pattern word) (Str.lower text) = true.
Proof.
  unfold contains_profane_words. rewrite existsb_exists.
  split; intros (word & Hin & Hm); exists word; split; auto.
  - apply elem_of_elements, list_elem_of_In, Hin.
  - apply list_elem_of_In, elem_of_elements, Hin.
Qed.











End Classifier.




(** The empty term, which the loader stores for an empty cell, flags
    every text that has a word character. *)
Example empty_term_flags : label_of "hello" {[ "" ]} = 1.
Proof. vm_compute. reflexivity. Qed.

(** ** Segmenter *)

Section Segmenter.


Lemma len_of_range_ceil (d w : Z) :
  0 <= d -> 0 < w -> Py.len_of_range 0 d w = ceil_div d w.
Proof.
  intros Hd Hw. unfold Py.len_of_range, ceil_div.
  destruct (Z.ltb_spec 0 d) as [Hpos|Hz].
  - replace (d + w - 1) with (d - 0 - 1 + 1 * w) by lia.
    rewrite Z.div_add by lia. reflexivity.
  - assert (d = 0) as -> by lia.
    symmetry. apply Z.div_small. lia.
Qed.

Lemma len_nonneg (a : AudioSegment) : 0 <= Audio.len a.
Proof. unfold Audio.len. lia. Qed.

(** The chunks a positive window gives, in closed form. *)
Lemma chunks_of_positive (audio : AudioSegment) (w : Z) :
  0 < w ->
  chunks_of audio w =
  Return ((fun k => (k * w, Audio.slice audio (k * w) (k * w + w)))
            <$> seqZ 0 (ceil_div (Audio.len audio) w)).
Proof.
  intros Hw. unfold chunks_of, Py.range.
  destruct (Z.eqb_spec w 0) as [->|_]; [lia|].
  destruct (Z.ltb_spec 0 w) as [_|?]; [|lia].
  rewrite (len_of_range_ceil _ _ (len_nonneg audio) Hw).
  f_equal. rewrite <- list_fmap_compose. apply list_fmap_ext.
  intros _ k _. simpl. reflexivity.
Qed.







Lemma split_audio_run (wd : world) (audio_path : path) (audio : AudioSegment) (w : Z) :
  Os.stat wd audio_path = Some (Audio audio) ->
  split_audio audio_path w wd = (chunks_of audio w, wd).
Proof.
  intros Hst. unfold split_audio, bind, Lib.from_file, lift. rewrite Hst. reflexivity.
Qed.

End Segmenter.



(** C3, as the code has it: a window of zero makes [split_audio] fail with
    the [ValueError] of [range] and gives no chunks; a negative window
    does not fail and gives the empty list of chunks; a positive window
    never fails. *)
Theorem C3_window_size_errors (wd : world) (audio_path : path)
  (audio : AudioSegment) (chunk_length_ms : Z) :
  Os.stat wd audio_path = Some (Audio audio) ->
  (chunk_length_ms = 0 ->
   split_audio audio_path chunk_length_ms wd = (Raise ValueError, wd)) /\
  (chunk_length_ms < 0 ->
   split_audio audio_path chunk_length_ms wd = (Return [], wd)) /\
  (0 < chunk_length_ms ->
   exists chunks, split_audio audio_path chunk_length_ms wd = (Return chunks, wd)).
Proof.
  intros Hst. rewrite (split_audio_run _ _ _ _ Hst).
  split; [|split].
  - intros ->. reflexivity.
  - intros Hneg. unfold chunks_of, Py.range.
    destruct (Z.eqb_spec chunk_length_ms 0) as [?|_]; [lia|].
    destruct (Z.ltb_spec 0 chunk_length_ms) as [?|_]; [lia|].
    unfold Py.len_of_range.
    pose proof (len_nonneg audio) as Hd.
    destruct (Z.ltb_spec (Audio.len audio) 0) as [?|_]; [lia|].
    reflexivity.
  - intros Hpos. rewrite (chunks_of_positive _ _ Hpos). eexists. reflexivity.
Qed.

Lemma C3_window_size_errors_witness :
  split_audio (Temp 0) 0 twelve_seconds = (Raise ValueError, twelve_seconds) /\
  split_audio (Temp 0) (-5000) twelve_seconds = (Return [], twelve_seconds) /\
  exists chunks, split_audio (Temp 0) 5000 twelve_seconds = (Return chunks, twelve_seconds).
Proof.
  split; [|split].
  - apply (C3_window_size_errors twelve_seconds (Temp 0) (silence 12000) 0);
      reflexivity.
  - apply (C3_window_size_errors twelve_seconds (Temp 0) (silence 12000) (-5000));
      [reflexivity | lia].
  - apply (C3_window_size_errors twelve_seconds (Temp 0) (silence 12000) 5000);
      [reflexivity | lia].
Defined.

(** C3 as stated fails for a negative window: nothing is raised, the
    segmenter returns an empty list. *)
Lemma C3_negative_window_counterexample :
  fst (split_audio (Temp 0) (-5000) twelve_seconds) = Return [] /\
  ~ exists e, fst (split_audio (Temp 0) (-5000) twelve_seconds) = Raise e.
Proof.
  assert (E : fst (split_audio (Temp 0) (-5000) twelve_seconds) = Return []).
  { rewrite (split_audio_run _ _ (silence 12000)) by reflexivity.
    vm_compute. reflexivity. }
  split; [exact E|].
  intros [e He]. rewrite E in He. discriminate.
Qed.

(** ** Lexicon loader *)

Section Loader.

Lemma load_missing (csv_path : string) (w : world) :
  Os.stat w (Named csv_path) = None ->
  load_profane_words_from_csv csv_path w =
  (Return ∅, printed (LexiconNotFound csv_path) w).
Proof.
  intros Hst. unfold load_profane_words_from_csv, bind, Os.exists_.
  rewrite Hst. rewrite bool_decide_eq_false_2 by (intros [? ?]; discriminate).
  reflexivity.
Qed.

(** Every term the loop adds is a cell of the [Profanity] column,
    stripped and lower-cased. *)
Lemma add_profanities_normalised (rows : list (gmap string (option string))) :
  forall (acc out : gset string),
    add_profanities acc rows = Return out ->
    forall term, term ∈ out ->
      term ∈ acc \/
      exists row v, row ∈ rows /\ row !! "Profanity" = Some (Some v) /\
                    term = Str.lower (Str.strip v).
Proof.
  induction rows as [|row rows IH]; intros acc out Hrun term Hin.
  - injection Hrun as <-. left. exact Hin.
  - simpl in Hrun. unfold add_profanity in Hrun.
    destruct (row !! "Profanity") as [[v|]|] eqn:Hrow; [| discriminate |].
    + destruct (IH _ _ Hrun term Hin) as [Hacc|(row' & v' & Hr & Hv & Ht)].
      * apply elem_of_union in Hacc as [Hnew|Hold]; [|left; exact Hold].
        apply elem_of_singleton in Hnew. right. exists row, v.
        split; [left | split; [exact Hrow | exact Hnew]].
      * right. exists row', v'. split; [right; exact Hr | split; assumption].
    + destruct (IH _ _ Hrun term Hin) as [Hacc|(row' & v' & Hr & Hv & Ht)].
      * left. exact Hacc.
      * right. exists row', v'. split; [right; exact Hr | split; assumption].
Qed.

Example load_full_rows :
  fst (load_profane_words_from_csv "words.csv" full_rows_world) = Return {[ "heck"; "darn" ]}.
Proof. vm_compute. reflexivity. Qed.

Example load_without_column :
  fst (load_profane_words_from_csv "other.csv" full_rows_world) = Return ∅.
Proof. vm_compute. reflexivity. Qed.

End Loader.

(** C4 fails on the code: a row too short to reach the [Profanity] column
    is not skipped.  [csv.DictReader] fills the column with [None], the
    test ['Profanity' in row] passes, and [None.strip()] raises
    [AttributeError] out of the loader. *)
Theorem C4_short_row_raises :
  load_profane_words_from_csv "words.csv" short_row_world =
  (Raise AttributeError, short_row_world).
Proof. vm_compute. reflexivity. Qed.

(** ** Running the monad *)

Section Monad.

Context {A B : Type}.

Lemma bind_of_return (m : M A) (k : A -> M B) (w w1 : world) (a : A) :
  m w = (Return a, w1) -> bind m k w = k a w1.
Proof. intros H. unfold bind. rewrite H. reflexivity. Qed.

Lemma bind_of_raise (m : M A) (k : A -> M B) (w w1 : world) (e : exn) :
  m w = (Raise e, w1) -> bind m k w = (Raise e, w1).
Proof. intros H. unfold bind. rewrite H. reflexivity. Qed.

Lemma bind_return_inv (m : M A) (k : A -> M B) (w w' : world) (b : B) :
  bind m k w = (Return b, w') ->
  exists a w1, m w = (Return a, w1) /\ k a w1 = (Return b, w').
Proof.
  unfold bind. destruct (m w) as [[a|e] w1]; intros H; [|discriminate].
  exists a, w1. split; [reflexivity | exact H].
Qed.

Lemma bind_raise_inv (m : M A) (k : A -> M B) (w w' : world) (e : exn) :
  bind m k w = (Raise e, w') ->
  m w = (Raise e, w') \/
  exists a w1, m w = (Return a, w1) /\ k a w1 = (Raise e, w').
Proof.
  unfold bind. destruct (m w) as [[a|e0] w1]; intros H.
  - right. exists a, w1. split; [reflexivity | exact H].
  - left. injection H as -> ->. reflexivity.
Qed.

End Monad.

(** ** Directories *)

Section Makedirs.

Lemma cut_length (p head tail : string) :
  Os.cut_last_slash p = Some (head, tail) ->
  (String.length head + String.length tail = String.length p)%nat.
Proof.
  revert head tail. induction p as [|c p IH]; intros head tail H; [discriminate|].
  simpl in H. destruct (Os.cut_last_slash p) as [[h t]|].
  - injection H as <- <-. simpl. rewrite (IH h t eq_refl). reflexivity.
  - destruct (Ascii.eqb c "/"); [|discriminate].
    injection H as <- <-. reflexivity.
Qed.

Lemma rstrip_slashes_length (s : string) :
  (String.length (Os.rstrip_slashes s) <= String.length s)%nat.
Proof.
  induction s as [|c s IH]; [reflexivity|].
  simpl. destruct (Os.rstrip_slashes s) as [|d r].
  - destruct (Os.is_slash c); simpl; lia.
  - simpl in *. lia.
Qed.

Lemma split_length (p : string) :
  (String.length (fst (Os.split p)) + String.length (snd (Os.split p))
   <= String.length p)%nat.
Proof.
  unfold Os.split. destruct (Os.cut_last_slash p) as [[head tail]|] eqn:Hcut.
  - pose proof (cut_length _ _ _ Hcut) as Hlen.
    pose proof (rstrip_slashes_length head) as Hstrip.
    simpl. destruct (Str.all_chars Os.is_slash head); lia.
  - simpl. lia.
Qed.

(** The head that [os.makedirs] recurses on is shorter than the name. *)
Lemma head_shorter (name : string) :
  snd (Os.head_tail name) <> EmptyString ->
  (String.length (fst (Os.head_tail name)) < String.length name)%nat.
Proof.
  unfold Os.head_tail.
  pose proof (split_length name) as H1.
  destruct (Os.split name) as [head tail]. simpl in H1.
  destruct (decide (tail = "")) as [->|Hne].
  - pose proof (split_length head) as H2.
    destruct (Os.split head) as [head' tail']. simpl in *. intros Hne.
    destruct tail'; [congruence | simpl in *; lia].
  - intros _. simpl. destruct tail; [congruence | simpl in *; lia].
Qed.

Lemma exists_run {A : Type} (p : path) (k : bool -> M A) (w : world) :
  bind (Os.exists_ p) k w = k (bool_decide (is_Some (Os.stat w p))) w.
Proof. reflexivity. Qed.

Lemma makedirs_body_ext (again1 again2 : string -> M unit) (name : string)
  (exist_ok : bool) (w : world) :
  (forall head w', (String.length head < String.length name)%nat ->
                   again1 head w' = again2 head w') ->
  Os.makedirs_body again1 name exist_ok w = Os.makedirs_body again2 name exist_ok w.
Proof.
  intros Hext. unfold Os.makedirs_body.
  pose proof (head_shorter name) as Hshort.
  destruct (Os.head_tail name) as [head tail]. simpl in Hshort.
  rewrite !exists_run.
  destruct (bool_decide (head <> "") && bool_decide (tail <> "") &&
            negb (bool_decide (is_Some (Os.stat w (Named head))))) eqn:Hcond;
    [|reflexivity].
  apply andb_prop in Hcond as [Hcond _]. apply andb_prop in Hcond as [_ Htail].
  apply bool_decide_eq_true_1 in Htail.
  unfold bind, try_except. rewrite (Hext head w (Hshort Htail)). reflexivity.
Qed.

(** Fuel beyond the length of the name changes nothing: the exception
    that stands for exhausted fuel is never raised by [Os.makedirs]. *)
Lemma makedirs_fuel (fuel1 : nat) :
  forall (fuel2 : nat) (name : string) (exist_ok : bool) (w : world),
    (String.length name <= fuel1)%nat -> (String.length name <= fuel2)%nat ->
    Os.makedirs_rec fuel1 name exist_ok w = Os.makedirs_rec fuel2 name exist_ok w.
Proof.
  induction fuel1 as [|fuel1 IH]; intros fuel2 name exist_ok w H1 H2.
  - destruct name; [|simpl in H1; lia].
    destruct fuel2; reflexivity.
  - destruct fuel2 as [|fuel2].
    + destruct name; [|simpl in H2; lia]. reflexivity.
    + cbn [Os.makedirs_rec]. apply makedirs_body_ext.
      intros head w' Hlt. apply IH; lia.
Qed.

End Makedirs.

(** ** Result sink *)

Section Sink.

Lemma set_files_twice (f g : gmap path file -> gmap path file) (w : world) :
  set_files f (set_files g w) = set_files (fun m => f (g m)) w.
Proof. reflexivity. Qed.

Lemma cut_bare (p : string) : bare_filename p -> Os.cut_last_slash p = None.
Proof.
  unfold bare_filename. induction p as [|c p IH]; [reflexivity|].
  simpl. intros H. apply andb_prop in H as [Hc Hp].
  rewrite (IH Hp). unfold Os.is_slash in Hc.
  destruct (Ascii.eqb c "/"); [discriminate | reflexivity].
Qed.

Lemma dirname_bare (p : string) : bare_filename p -> Os.dirname p = EmptyString.
Proof.
  intros H. unfold Os.dirname, Os.split. rewrite (cut_bare p H). reflexivity.
Qed.

(** [os.makedirs('', exist_ok=True)] raises in every world. *)
Lemma makedirs_empty (w : world) :
  Os.makedirs EmptyString true w = (Raise FileNotFoundError, w).
Proof. reflexivity. Qed.

(** The rows written one after the other end up in the file, in order. *)
Lemma writerows_run (p : path) (transcriptions : list record) :
  forall (rows : list (list string)) (w : world),
    files w !! p = Some (Csv rows) ->
    for_each transcriptions (fun row => Lib.writerow p (row_fields row)) w =
    (Return tt,
     set_files <[p := Csv (rows ++ (row_fields <$> transcriptions))]> w).
Proof.
  induction transcriptions as [|r rs IH]; intros rows w Hp.
  - simpl. unfold ret. f_equal. rewrite app_nil_r.
    destruct w as [fs ro nt co ec]. unfold set_files. simpl in *.
    rewrite (insert_id fs p _ Hp). reflexivity.
  - change (for_each (r :: rs) (fun row => Lib.writerow p (row_fields row)))
      with (bind (Lib.writerow p (row_fields r))
              (fun _ => for_each rs (fun row => Lib.writerow p (row_fields row)))).
    erewrite bind_of_return; [|unfold Lib.writerow; rewrite Hp; reflexivity].
    rewrite (IH (rows ++ [row_fields r])%list).
    + rewrite set_files_twice. f_equal.
      destruct w as [fs ro nt co ec]. unfold set_files. simpl.
      rewrite insert_insert_eq, <- app_assoc. reflexivity.
    + simpl. apply lookup_insert_eq.
Qed.

Lemma open_write_blank (p : path) (w w' : world) :
  Os.open_write p w = (Return tt, w') -> w' = set_files <[p := Blank]> w.
Proof.
  unfold Os.open_write. intros H.
  destruct (Os.stat w p) as [[]|]; try (destruct (Os.write_protected w p));
    try destruct (Os.creatable w p); congruence.
Qed.

(** A save that goes through leaves the report in the destination. *)
Lemma save_block_writes (transcriptions : list record) (output_file : string)
  (w w' : world) :
  save_block transcriptions output_file w = (Return tt, w') ->
  files w' !! Named output_file = Some (Csv (report_rows transcriptions)) /\
  console w' <> [] /\ last (console w') = Some (ResultsSaved output_file).
Proof.
  unfold save_block. intros H.
  apply bind_return_inv in H as ([] & w1 & _ & H).
  apply bind_return_inv in H as ([] & w2 & Hopen & H).
  apply open_write_blank in Hopen.
  assert (Hblank : files w2 !! Named output_file = Some Blank).
  { subst w2. simpl. apply lookup_insert_eq. }
  apply bind_return_inv in H as ([] & w3 & Hhead & H).
  unfold Lib.writerow in Hhead. rewrite Hblank in Hhead.
  injection Hhead as <-.
  apply bind_return_inv in H as ([] & w4 & Hrows & H).
  rewrite (writerows_run _ _ [fieldnames]) in Hrows by (simpl; apply lookup_insert_eq).
  injection Hrows as <-.
  unfold Os.print in H. injection H as <-. simpl.
  split; [apply lookup_insert_eq|]. split.
  - intros Hnil. apply app_eq_nil in Hnil as [_ Hnil]. discriminate.
  - apply last_snoc.
Qed.

Lemma save_to_csv_of_raise (transcriptions : list record) (output_file : string)
  (w w1 : world) (e : exn) :
  save_block transcriptions output_file w = (Raise e, w1) ->
  save_to_csv transcriptions output_file w =
  (Return tt, printed (failure_message output_file e) w1).
Proof.
  intros H. unfold save_to_csv, try_except, failure_message. rewrite H.
  destruct (decide (e = PermissionError)); reflexivity.
Qed.

Lemma save_to_csv_of_return (transcriptions : list record) (output_file : string)
  (w w1 : world) :
  save_block transcriptions output_file w = (Return tt, w1) ->
  save_to_csv transcriptions output_file w = (Return tt, w1).
Proof. intros H. unfold save_to_csv, try_except. rewrite H. reflexivity. Qed.

(** [save_to_csv] returns whatever happens in its [try] block. *)
Lemma save_to_csv_returns (transcriptions : list record) (output_file : string)
  (w : world) :
  exists w', save_to_csv transcriptions output_file w = (Return tt, w').
Proof.
  destruct (save_block transcriptions output_file w) as [[[]|e] w1] eqn:H.
  - exists w1. apply save_to_csv_of_return, H.
  - eexists. apply save_to_csv_of_raise, H.
Qed.

End Sink.

(** ** What the sink leaves alone *)

Section Frame.

Lemma keeps_ret {A : Type} (a : A) : keeps_temps (ret a).
Proof. intros w w' r H n. injection H as <- <-. reflexivity. Qed.

Lemma keeps_raise {A : Type} (e : exn) : keeps_temps (@raise A e).
Proof. intros w w' r H n. injection H as <- <-. reflexivity. Qed.

Lemma keeps_bind {A B : Type} (m : M A) (k : A -> M B) :
  keeps_temps m -> (forall a, keeps_temps (k a)) -> keeps_temps (bind m k).
Proof.
  intros Hm Hk w w' r H n. unfold bind in H.
  destruct (m w) as [[a|e] w1] eqn:Hmw.
  - rewrite (Hk a _ _ _ H n). apply (Hm _ _ _ Hmw n).
  - injection H as <- <-. apply (Hm _ _ _ Hmw n).
Qed.

Lemma keeps_try_except {A : Type} (m : M A) (handler : exn -> M A) :
  keeps_temps m -> (forall e, keeps_temps (handler e)) ->
  keeps_temps (try_except m handler).
Proof.
  intros Hm Hh w w' r H n. unfold try_except in H.
  destruct (m w) as [[a|e] w1] eqn:Hmw.
  - injection H as <- <-. apply (Hm _ _ _ Hmw n).
  - rewrite (Hh e _ _ _ H n). apply (Hm _ _ _ Hmw n).
Qed.

Lemma keeps_for_each {A : Type} (xs : list A) (body : A -> M unit) :
  (forall x, keeps_temps (body x)) -> keeps_temps (for_each xs body).
Proof.
  intros Hbody. induction xs as [|x xs IH]; [apply keeps_ret|].
  apply keeps_bind; [apply Hbody | intros _; exact IH].
Qed.

Lemma keeps_print (m : message) : keeps_temps (Os.print m).
Proof. intros w w' r H n. injection H as <- <-. reflexivity. Qed.

Lemma keeps_exists (p : path) : keeps_temps (Os.exists_ p).
Proof. intros w w' r H n. injection H as <- <-. reflexivity. Qed.

Lemma keeps_isdir (p : path) : keeps_temps (Os.isdir p).
Proof. intros w w' r H n. injection H as <- <-. reflexivity. Qed.

Lemma keeps_mkdir (name : string) : keeps_temps (Os.mkdir name).
Proof.
  intros w w' r H n. unfold Os.mkdir in H.
  destruct (Os.stat w (Named name)); [injection H as <- <-; reflexivity|].
  destruct (Os.creatable w (Named name)); injection H as <- <-; [|reflexivity].
  simpl. apply lookup_insert_ne. discriminate.
Qed.

Lemma keeps_open_write (name : string) : keeps_temps (Os.open_write (Named name)).
Proof.
  intros w w' r H n. unfold Os.open_write in H.
  destruct (Os.stat w (Named name)) as [[]|];
    try destruct (Os.write_protected w (Named name));
    try destruct (Os.creatable w (Named name));
    injection H as <- <-; try reflexivity;
    simpl; apply lookup_insert_ne; discriminate.
Qed.

Lemma keeps_writerow (name : string) (row : list string) :
  keeps_temps (Lib.writerow (Named name) row).
Proof.
  intros w w' r H n. unfold Lib.writerow in H.
  destruct (files w !! Named name) as [[]|];
    injection H as <- <-; try reflexivity;
    simpl; apply lookup_insert_ne; discriminate.
Qed.

Lemma keeps_makedirs_body (again : string -> M unit) (name : string) (exist_ok : bool) :
  (forall head, keeps_temps (again head)) ->
  keeps_temps (Os.makedirs_body again name exist_ok).
Proof.
  intros Hagain. unfold Os.makedirs_body.
  destruct (Os.head_tail name) as [head tail].
  assert (Hleaf : keeps_temps
                    (try_except (Os.mkdir name)
                       (fun e => bind (Os.isdir (Named name))
                                   (fun d => if negb exist_ok || negb d
                                             then raise e else ret tt)))).
  { apply keeps_try_except; [apply keeps_mkdir|].
    intros e. apply keeps_bind; [apply keeps_isdir|].
    intros d. destruct (negb exist_ok || negb d); [apply keeps_raise | apply keeps_ret]. }
  apply keeps_bind; [apply keeps_exists | intros there].
  destruct (bool_decide (head <> "") && bool_decide (tail <> "") && negb there);
    [|exact Hleaf].
  apply keeps_bind.
  - apply keeps_try_except; [apply Hagain|].
    intros e. destruct (decide (e = FileExistsError)); [apply keeps_ret | apply keeps_raise].
  - intros _. destruct (decide (tail = ".")); [apply keeps_ret | exact Hleaf].
Qed.

Lemma keeps_makedirs_rec (fuel : nat) :
  forall (name : string) (exist_ok : bool), keeps_temps (Os.makedirs_rec fuel name exist_ok).
Proof.
  induction fuel as [|fuel IH]; intros name exist_ok;
    cbn [Os.makedirs_rec]; apply keeps_makedirs_body; intros head.
  - apply keeps_raise.
  - apply IH.
Qed.

(** Saving touches named files only. *)
Lemma keeps_save_to_csv (transcriptions : list record) (output_file : string) :
  keeps_temps (save_to_csv transcriptions output_file).
Proof.
  unfold save_to_csv. apply keeps_try_except.
  - unfold save_block.
    apply keeps_bind; [apply keeps_makedirs_rec | intros _].
    apply keeps_bind; [apply keeps_open_write | intros _].
    apply keeps_bind; [apply keeps_writerow | intros _].
    apply keeps_bind; [|intros _; apply keeps_print].
    apply keeps_for_each. intros row. apply keeps_writerow.
  - intros e. destruct (decide (e = PermissionError)); apply keeps_print.
Qed.

End Frame.

(** C10: for a destination without a directory part, [save_to_csv] takes
    the generic error branch in every world, also one whose current
    directory is writable: [os.makedirs] of the empty parent raises
    [FileNotFoundError], the message of the [except Exception] branch is
    printed, and the file system is left as it was. *)
Theorem C10_bare_filename_never_saved (transcriptions : list record)
  (output_file : string) (w : world) :
  bare_filename output_file ->
  exists w',
    save_to_csv transcriptions output_file w = (Return tt, w') /\
    console w' = (console w ++ [ErrorMessage FileNotFoundError])%list /\
    files w' = files w.
Proof.
  intros Hbare.
  assert (Hblock : save_block transcriptions output_file w = (Raise FileNotFoundError, w)).
  { unfold save_block. apply bind_of_raise.
    rewrite (dirname_bare _ Hbare). apply makedirs_empty. }
  exists (printed (ErrorMessage FileNotFoundError) w).
  split; [|split; reflexivity].
  rewrite (save_to_csv_of_raise _ _ _ _ _ Hblock). reflexivity.
Qed.

Lemma C10_bare_filename_never_saved_witness :
  exists w',
    save_to_csv [ {| segment := "0.0s - 3.0s"; text := ""; label := 0 |} ]
      "out.csv" empty_world = (Return tt, w') /\
    console w' = [ErrorMessage FileNotFoundError] /\
    files w' = ∅.
Proof.
  apply (C10_bare_filename_never_saved
           [ {| segment := "0.0s - 3.0s"; text := ""; label := 0 |} ]
           "out.csv" empty_world).
  reflexivity.
Defined.

Lemma saved_message_inv (transcriptions : list record) (output_file : string)
  (w w' : world) :
  save_to_csv transcriptions output_file w = (Return tt, w') ->
  last (console w') = Some (ResultsSaved output_file) ->
  save_block transcriptions output_file w = (Return tt, w').
Proof.
  intros Hsave Hlast.
  destruct (save_block transcriptions output_file w) as [[[]|e] w1] eqn:Hblock.
  - rewrite (save_to_csv_of_return _ _ _ _ Hblock) in Hsave. exact Hsave.
  - rewrite (save_to_csv_of_raise _ _ _ _ _ Hblock) in Hsave.
    injection Hsave as <-. simpl in Hlast. rewrite last_snoc in Hlast.
    unfold failure_message in Hlast.
    destruct (decide (e = PermissionError)); discriminate.
Qed.

(** C5: when the [try] block of [save_to_csv] raises [e], the call still
    returns; what it prints is the permission message exactly when [e] is
    [PermissionError] and the generic error message for every other
    exception; and the report, which the call does not touch, can be
    saved again: a later save of the same report that goes through
    stores exactly its rows. *)
Theorem C5_save_failures_reported (transcriptions : list record)
  (output_file : string) (w w1 : world) (e : exn) :
  save_block transcriptions output_file w = (Raise e, w1) ->
  save_to_csv transcriptions output_file w =
    (Return tt, printed (failure_message output_file e) w1) /\
  (e = PermissionError ->
   failure_message output_file e = PermissionDenied output_file) /\
  (e <> PermissionError -> failure_message output_file e = ErrorMessage e) /\
  (forall (retry_file : string) (w2 : world),
      save_to_csv transcriptions retry_file
        (printed (failure_message output_file e) w1) = (Return tt, w2) ->
      last (console w2) = Some (ResultsSaved retry_file) ->
      files w2 !! Named retry_file = Some (Csv (report_rows transcriptions))).
Proof.
  intros Hblock. split; [|split; [|split]].
  - apply save_to_csv_of_raise, Hblock.
  - intros ->. reflexivity.
  - intros Hne. unfold failure_message.
    destruct (decide (e = PermissionError)); [contradiction | reflexivity].
  - intros retry_file w2 Hsave Hlast.
    apply (saved_message_inv _ _ _ _ Hsave) in Hlast.
    apply (save_block_writes _ _ _ _ Hlast).
Qed.

Lemma C5_save_failures_reported_witness :
  save_to_csv one_record "locked/out.csv" locked_world =
    (Return tt, printed (PermissionDenied "locked/out.csv") locked_world) /\
  save_to_csv one_record "free/sub" locked_world =
    (Return tt, printed (ErrorMessage IsADirectoryError) locked_world).
Proof.
  split.
  - apply (C5_save_failures_reported one_record "locked/out.csv"
             locked_world locked_world PermissionError).
    vm_compute. reflexivity.
  - apply (C5_save_failures_reported one_record "free/sub"
             locked_world locked_world IsADirectoryError).
    vm_compute. reflexivity.
Defined.

(** ** Transcription loop *)

Section Loop.

Variable whisper_model : AudioSegment -> string -> outcome string.
Variable profane_words : gset string.
Variable language : string.

Lemma new_temp_run (w : world) :
  Os.named_temporary_file false (fun f => ret f) w =
  (Return (Temp (next_temp w)),
   World (<[Temp (next_temp w) := Blank]> (files w)) (readonly w)
         (S (next_temp w)) (console w) (engine_calls w)).
Proof. reflexivity. Qed.

Lemma export_run (chunk : AudioSegment) (n : nat) (w : world) :
  files w !! Temp n = Some Blank ->
  Lib.export chunk (Temp n) w = (Return tt, set_files <[Temp n := Audio chunk]> w).
Proof.
  intros H. unfold Lib.export, bind, Os.open_write. simpl. rewrite H.
  rewrite set_files_twice. f_equal.
  destruct w as [fs ro nt co ec]. unfold set_files. simpl.
  rewrite insert_insert_eq. reflexivity.
Qed.

Lemma transcribe_run (a : AudioSegment) (n : nat) (w : world) :
  files w !! Temp n = Some (Audio a) ->
  transcribe whisper_model (Temp n) language w =
  (whisper_model a language,
   World (files w) (readonly w) (next_temp w) (console w)
         (engine_calls w ++ [(a, language)])).
Proof. intros H. unfold transcribe. simpl. rewrite H. reflexivity. Qed.

Lemma remove_run (a : AudioSegment) (n : nat) (w : world) :
  files w !! Temp n = Some (Audio a) ->
  Os.remove (Temp n) w = (Return tt, set_files (delete (Temp n)) w).
Proof. intros H. unfold Os.remove. simpl. rewrite H. reflexivity. Qed.

(** A turn of the loop in which the engine answers. *)
Lemma loop_step_return (start_ms : Z) (chunk : AudioSegment)
  (chunks : list (Z * AudioSegment)) (transcriptions : list record)
  (w : world) (result : string) :
  whisper_model chunk language = Return result ->
  transcribe_loop whisper_model profane_words language
    ((start_ms, chunk) :: chunks) transcriptions w =
  transcribe_loop whisper_model profane_words language chunks
    (transcriptions ++ [record_of profane_words start_ms chunk result])%list
    (after_chunk language chunk w).
Proof.
  intros Hres. cbn [transcribe_loop].
  erewrite bind_of_return; [|apply new_temp_run].
  erewrite bind_of_return; [|apply export_run; apply lookup_insert_eq].
  erewrite bind_of_return;
    [|rewrite (transcribe_run chunk) by apply lookup_insert_eq; rewrite Hres; reflexivity].
  erewrite bind_of_return; [|apply (remove_run chunk); apply lookup_insert_eq].
  unfold record_of, after_chunk, set_files. simpl.
  rewrite !delete_insert_eq. reflexivity.
Qed.

(** A turn of the loop in which the engine raises: the exception leaves
    the loop before [os.remove] is reached. *)
Lemma loop_step_raise (start_ms : Z) (chunk : AudioSegment)
  (chunks : list (Z * AudioSegment)) (transcriptions : list record)
  (w : world) (e : exn) :
  whisper_model chunk language = Raise e ->
  transcribe_loop whisper_model profane_words language
    ((start_ms, chunk) :: chunks) transcriptions w =
  (Raise e, failed_chunk language chunk w).
Proof.
  intros Hres. cbn [transcribe_loop].
  erewrite bind_of_return; [|apply new_temp_run].
  erewrite bind_of_return; [|apply export_run; apply lookup_insert_eq].
  erewrite bind_of_raise;
    [|rewrite (transcribe_run chunk) by apply lookup_insert_eq; rewrite Hres; reflexivity].
  unfold failed_chunk, set_files. simpl.
  rewrite insert_insert_eq. reflexivity.
Qed.

Lemma loop_all_heard (chunks : list (Z * AudioSegment)) :
  Forall (heard whisper_model language) chunks ->
  forall (transcriptions : list record) (w : world),
    transcribe_loop whisper_model profane_words language chunks transcriptions w =
    (Return (transcriptions ++ records_of whisper_model profane_words language chunks)%list, after_chunks language chunks w).
Proof.
  induction 1 as [|[start_ms chunk] chunks [result Hres] _ IH]; intros transcriptions w.
  - simpl. rewrite app_nil_r. reflexivity.
  - simpl in Hres. rewrite (loop_step_return _ _ _ _ _ _ Hres), IH.
    unfold records_of, result_of. simpl. rewrite Hres, <- app_assoc. reflexivity.
Qed.

Lemma loop_first_failure (pre post : list (Z * AudioSegment))
  (c : Z * AudioSegment) (e : exn) :
  Forall (heard whisper_model language) pre ->
  whisper_model (snd c) language = Raise e ->
  forall (transcriptions : list record) (w : world),
    transcribe_loop whisper_model profane_words language (pre ++ c :: post)
      transcriptions w =
    (Raise e, failed_chunk language (snd c) (after_chunks language pre w)).
Proof.
  intros Hpre Hc.
  induction Hpre as [|[start_ms chunk] pre [result Hres] _ IH]; intros transcriptions w.
  - destruct c as [start_ms chunk]. simpl in *.
    apply (loop_step_raise _ _ _ _ _ _ Hc).
  - simpl in Hres. simpl app. rewrite (loop_step_return _ _ _ _ _ _ Hres), IH.
    reflexivity.
Qed.

Lemma after_chunks_next_temp (chunks : list (Z * AudioSegment)) :
  forall w : world,
    next_temp (after_chunks language chunks w) = (next_temp w + length chunks)%nat.
Proof.
  induction chunks as [|c chunks IH]; intros w; simpl; [lia|].
  rewrite IH. simpl. lia.
Qed.

(** Either every chunk is heard or there is a first one that is not. *)
Lemma heard_or_first_failure (chunks : list (Z * AudioSegment)) :
  Forall (heard whisper_model language) chunks \/
  exists pre c post e,
    chunks = (pre ++ c :: post)%list /\ Forall (heard whisper_model language) pre /\
    whisper_model (snd c) language = Raise e.
Proof.
  induction chunks as [|c chunks IH]; [left; constructor|].
  destruct (whisper_model (snd c) language) as [result|e] eqn:Hc.
  - destruct IH as [Hall|(pre & c' & post & e & -> & Hpre & He)].
    + left. constructor; [exists result; exact Hc | exact Hall].
    + right. exists (c :: pre), c', post, e.
      split; [reflexivity|]. split; [|exact He].
      constructor; [exists result; exact Hc | exact Hpre].
  - right. exists [], c, chunks, e. split; [reflexivity|]. split; [constructor | exact Hc].
Qed.

End Loop.

(** C7 fails on the code when the engine raises: the exception leaves the
    loop before [os.remove], and the chunk's temporary file stays. *)
Theorem C7_segment_file_left_on_failure :
  fst (transcribe_and_label_chunks broken_engine [(0, silence 3000)] ∅ "en" empty_world)
    = Raise RuntimeError /\
  files (snd (transcribe_and_label_chunks broken_engine [(0, silence 3000)] ∅ "en"
                empty_world)) !! Temp 0
    = Some (Audio (silence 3000)).
Proof.
  unfold transcribe_and_label_chunks.
  rewrite (loop_step_raise broken_engine ∅ "en" 0 (silence 3000) [] [] empty_world
             RuntimeError eq_refl).
  split; [reflexivity|]. simpl. apply lookup_insert_eq.
Qed.

(** When the engine answers, the chunk's file is gone after the turn. *)
Lemma segment_file_removed_on_success (language : string) (chunk : AudioSegment)
  (w : world) :
  files (after_chunk language chunk w) !! Temp (next_temp w) = None.
Proof. simpl. apply lookup_delete_eq. Qed.

(** Whatever the world and the chunks, the file of the first chunk the
    engine fails on is left behind. *)
Lemma segment_file_left (whisper_model : AudioSegment -> string -> outcome string)
  (profane_words : gset string) (language : string)
  (pre post : list (Z * AudioSegment)) (c : Z * AudioSegment) (e : exn) (w : world) :
  Forall (heard whisper_model language) pre ->
  whisper_model (snd c) language = Raise e ->
  exists w',
    transcribe_and_label_chunks whisper_model (pre ++ c :: post)%list
      profane_words language w = (Raise e, w') /\
    files w' !! Temp (next_temp w + length pre) = Some (Audio (snd c)).
Proof.
  intros Hpre Hc. eexists. split.
  - apply (loop_first_failure _ _ _ _ _ _ _ Hpre Hc).
  - simpl. rewrite (after_chunks_next_temp language pre w). apply lookup_insert_eq.
Qed.

(** ** Main function *)

Section MainRun.

Variable whisper_model : AudioSegment -> string -> outcome string.

Lemma try_finally_nothing {A : Type} (m : M A) (w : world) :
  try_finally m (ret tt) w = m w.
Proof. unfold try_finally, ret. destruct (m w) as [r w']. reflexivity. Qed.

Lemma stat_named (w w' : world) (s : string) :
  files w' !! Named s = files w !! Named s ->
  Os.stat w' (Named s) = Os.stat w (Named s).
Proof. intros H. unfold Os.stat. rewrite H. reflexivity. Qed.

(** The loader reads and prints; it changes nothing else. *)
Lemma load_frame (csv_path : string) (w w1 : world) (r : outcome (gset string)) :
  load_profane_words_from_csv csv_path w = (r, w1) ->
  files w1 = files w /\ readonly w1 = readonly w /\ next_temp w1 = next_temp w /\
  engine_calls w1 = engine_calls w /\
  (console w1 = console w \/ exists m, console w1 = (console w ++ [m])%list).
Proof.
  unfold load_profane_words_from_csv, bind, Os.exists_, Lib.read_csv, lift, Os.print, ret.
  destruct (bool_decide (is_Some (Os.stat w (Named csv_path)))).
  - destruct (Os.stat w (Named csv_path)) as [[| |rows| |]|];
      try (intros H; injection H as <- <-; repeat split; left; reflexivity).
    + destruct (add_profanities ∅ (Lib.dict_reader [])); intros H; injection H as <- <-;
        repeat split; simpl; eauto.
    + destruct (add_profanities ∅ (Lib.dict_reader rows)); intros H; injection H as <- <-;
        repeat split; simpl; eauto.
  - intros H; injection H as <- <-. repeat split; simpl; eauto.
Qed.

(** Up to the transcription loop [main] runs the same way whenever the
    clip has an audio track and the lexicon loads. *)
Lemma main_reaches_loop (video_path output_csv profanity_csv language : string)
  (w w1 : world) (a : AudioSegment) (profane_words : gset string)
  (chunks : list (Z * AudioSegment)) :
  Os.stat w (Named video_path) = Some (Video (Some a)) ->
  load_profane_words_from_csv profanity_csv w = (Return profane_words, w1) ->
  chunks_of a 5000 = Return chunks ->
  main whisper_model video_path output_csv profanity_csv language w =
  bind (transcribe_and_label_chunks whisper_model chunks profane_words language)
    (fun results =>
       Os.print SavingResults ;; save_to_csv results output_csv ;; Os.print Done)
    (ready_world a w1).
Proof.
  intros Hvideo Hload Hchunks.
  destruct (load_frame _ _ _ _ Hload) as (Hf & Hr & Hn & He & _).
  match goal with |- _ = ?r => set (rhs := r) end.
  unfold main.
  erewrite bind_of_return;
    [|unfold Os.exists_; rewrite Hvideo, bool_decide_eq_true_2 by eauto; reflexivity].
  change (negb true) with false. cbv iota.
  erewrite bind_of_return; [|exact Hload].
  unfold Os.named_temporary_file.
  erewrite bind_of_return; [|reflexivity].
  rewrite try_finally_nothing.
  erewrite bind_of_return; [|reflexivity].
  erewrite bind_of_return.
  2:{ unfold extract_audio_from_video, Lib.write_audiofile.
      rewrite (stat_named w _ video_path), Hvideo; [reflexivity|].
      simpl. rewrite lookup_insert_ne by discriminate. rewrite Hf. reflexivity. }
  erewrite bind_of_return; [|reflexivity].
  erewrite bind_of_return.
  2:{ rewrite (split_audio_run _ _ a); [rewrite Hchunks; reflexivity|].
      simpl. apply lookup_insert_eq. }
  erewrite bind_of_return; [|reflexivity].
  subst rhs. unfold ready_world, Os.print, set_files. simpl.
  rewrite insert_insert_eq, <- !app_assoc. reflexivity.
Qed.

Lemma after_chunks_frame (language : string) (chunks : list (Z * AudioSegment)) :
  forall w : world,
    engine_calls (after_chunks language chunks w) =
      (engine_calls w ++ ((fun c => (snd c, language)) <$> chunks))%list /\
    console (after_chunks language chunks w) = console w /\
    readonly (after_chunks language chunks w) = readonly w /\
    next_temp (after_chunks language chunks w) = (next_temp w + length chunks)%nat /\
    (forall p, (forall n, p = Temp n -> n < next_temp w)%nat ->
               files (after_chunks language chunks w) !! p = files w !! p).
Proof.
  induction chunks as [|c chunks IH]; intros w.
  - simpl. rewrite app_nil_r, Nat.add_0_r. repeat split; reflexivity.
  - simpl. destruct (IH (after_chunk language (snd c) w)) as (He & Hc & Hr & Hn & Hf).
    rewrite He, Hc, Hr, Hn. simpl. rewrite <- app_assoc.
    repeat split; try reflexivity; try lia.
    intros p Hp. rewrite Hf.
    + simpl. apply lookup_delete_ne. intros <-. specialize (Hp _ eq_refl). lia.
    + intros n ->. specialize (Hp _ eq_refl). simpl. lia.
Qed.

End MainRun.

(** C8: when the clip has an audio track, the lexicon loads, and the
    engine raises [e] on a chunk after answering on all chunks before it,
    [main] raises [e]; the engine was called on the chunks up to that one
    and on no later one; nothing was printed after the message that
    transcription starts, so the saving step was never entered; and every
    named file, the report's destination among them, is as it was. *)
Theorem C8_transcription_failure_aborts
  (whisper_model : AudioSegment -> string -> outcome string)
  (video_path output_csv profanity_csv language : string)
  (w w1 : world) (a : AudioSegment) (profane_words : gset string)
  (pre post : list (Z * AudioSegment)) (c : Z * AudioSegment) (e : exn) :
  Os.stat w (Named video_path) = Some (Video (Some a)) ->
  load_profane_words_from_csv profanity_csv w = (Return profane_words, w1) ->
  chunks_of a 5000 = Return (pre ++ c :: post)%list ->
  Forall (heard whisper_model language) pre ->
  whisper_model (snd c) language = Raise e ->
  exists w',
    main whisper_model video_path output_csv profanity_csv language w = (Raise e, w') /\
    engine_calls w' =
      (engine_calls w ++ ((fun c => (snd c, language)) <$> (pre ++ [c])))%list /\
    console w' = (console w1 ++ [ExtractingAudio; SplittingAudio; Transcribing])%list /\
    (forall p, files w' !! Named p = files w !! Named p).
Proof.
  intros Hvideo Hload Hchunks Hpre Hc.
  destruct (load_frame _ _ _ _ Hload) as (Hf & Hr & Hn & He & _).
  exists (failed_chunk language (snd c) (after_chunks language pre (ready_world a w1))).
  destruct (after_chunks_frame language pre (ready_world a w1)) as (Ae & Ac & Ar & An & Af).
  split; [|split; [|split]].
  - rewrite (main_reaches_loop whisper_model _ _ _ _ _ _ _ _ _ Hvideo Hload Hchunks).
    apply bind_of_raise. unfold transcribe_and_label_chunks.
    apply (loop_first_failure _ _ _ _ _ _ _ Hpre Hc).
  - simpl. rewrite Ae. simpl. rewrite He, fmap_app, <- app_assoc. reflexivity.
  - simpl. rewrite Ac. reflexivity.
  - intros p. simpl. rewrite lookup_insert_ne by discriminate.
    rewrite Af by (intros n Hp; discriminate).
    simpl. rewrite lookup_insert_ne by discriminate. rewrite Hf. reflexivity.
Qed.

Lemma C8_transcription_failure_aborts_witness :
  exists w',
    main picky_engine "talk.mp4" "output/labels.csv" "none.csv" "en" talk_world
      = (Raise RuntimeError, w') /\
    engine_calls w' =
      (engine_calls talk_world ++
       ((fun c => (snd c, "en")) <$> ([(0, silence 5000)] ++ [(5000, tone 5000)])))%list /\
    console w' =
      (console (printed (LexiconNotFound "none.csv") talk_world) ++
       [ExtractingAudio; SplittingAudio; Transcribing])%list /\
    (forall p, files w' !! Named p = files talk_world !! Named p).
Proof.
  apply (C8_transcription_failure_aborts picky_engine
           "talk.mp4" "output/labels.csv" "none.csv" "en"
           talk_world (printed (LexiconNotFound "none.csv") talk_world)
           (silence 5000 ++ tone 7000)%list ∅
           [(0, silence 5000)] [(10000, tone 2000)] (5000, tone 5000) RuntimeError).
  - vm_compute. reflexivity.
  - vm_compute. reflexivity.
  - vm_compute. reflexivity.
  - constructor; [|constructor]. exists EmptyString. vm_compute. reflexivity.
  - vm_compute. reflexivity.
Defined.

(** ** The report of a run *)

Section Report.

Variable whisper_model : AudioSegment -> string -> outcome string.



(** What a run of [main] that returns has gone through. *)
Lemma main_return_inv (video_path output_csv profanity_csv language : string)
  (w w' : world) :
  main whisper_model video_path output_csv profanity_csv language w = (Return tt, w') ->
  exists a profane_words w1 chunks w2,
    Os.stat w (Named video_path) = Some (Video (Some a)) /\
    load_profane_words_from_csv profanity_csv w = (Return profane_words, w1) /\
    chunks_of a 5000 = Return chunks /\
    save_to_csv (records_of whisper_model profane_words language chunks) output_csv
      (printed SavingResults (after_chunks language chunks (ready_world a w1)))
      = (Return tt, w2) /\
    w' = printed Done w2.
Proof.
  intros Hmain.
  assert (Hinv := Hmain). unfold main in Hinv.
  apply bind_return_inv in Hinv as (there & w0 & Hthere & Hinv).
  destruct there; [|discriminate].
  change (negb true) with false in Hinv. cbv iota in Hinv.
  apply bind_return_inv in Hinv as (profane_words & w1 & Hload & Hinv).
  unfold Os.exists_ in Hthere. injection Hthere as Hthere <-.
  unfold Os.named_temporary_file in Hinv.
  apply bind_return_inv in Hinv as (temp & w2 & Htemp & Hinv).
  rewrite try_finally_nothing in Hinv.
  apply bind_return_inv in Hinv as ([] & w3 & Hprint & Hinv).
  apply bind_return_inv in Hinv as ([] & w4 & Hextract & _).
  destruct (load_frame _ _ _ _ Hload) as (Hf & _).
  injection Htemp as <- <-. injection Hprint as <-.
  unfold extract_audio_from_video, Lib.write_audiofile in Hextract.
  rewrite (stat_named w _ video_path) in Hextract
    by (simpl; rewrite lookup_insert_ne by discriminate; rewrite Hf; reflexivity).
  destruct (Os.stat w (Named video_path)) as [[| | | |[a|]]|] eqn:Hvideo;
    try discriminate.
  pose proof (chunks_of_positive a 5000 ltac:(lia)) as Hchunks.
  rewrite (main_reaches_loop whisper_model _ _ _ _ _ _ _ _ _ Hvideo Hload Hchunks)
    in Hmain.
  apply bind_return_inv in Hmain as (results & w5 & Hloop & Hmain).
  unfold transcribe_and_label_chunks in Hloop.
  destruct (heard_or_first_failure whisper_model language
              ((fun k => (k * 5000, Audio.slice a (k * 5000) (k * 5000 + 5000)))
                 <$> seqZ 0 (ceil_div (Audio.len a) 5000)))
    as [Hall|(pre & c & post & e & Hsplit & Hpre & Hc)].
  - rewrite (loop_all_heard whisper_model profane_words language _ Hall) in Hloop.
    injection Hloop as <- <-.
    apply bind_return_inv in Hmain as ([] & w6 & Hprint & Hmain).
    injection Hprint as <-.
    apply bind_return_inv in Hmain as ([] & w7 & Hsave & Hmain).
    injection Hmain as <-.
    eexists a, profane_words, w1, _, w7.
    split; [reflexivity|]. split; [exact Hload|]. split; [exact Hchunks|].
    split; [exact Hsave | reflexivity].
  - rewrite Hsplit in Hloop.
    rewrite (loop_first_failure whisper_model profane_words language _ _ _ _ Hpre Hc)
      in Hloop.
    discriminate.
Qed.

End Report.

(** The scenario of the specification: three seconds of silence, an
    empty lexicon, one record. *)
Example silent_clip_report :
  files (snd (main silent_engine "clip.mp4" "output/labels.csv" "none.csv" "en"
                clip_world)) !! Named "output/labels.csv"
  = Some (Csv [["segment"; "text"; "label"]; ["0.0s - 3.0s"; ""; "0"]]).
Proof. vm_compute. reflexivity. Qed.

(** Every run of [main] that returns leaves the extracted audio in its
    temporary file. *)
Lemma extracted_audio_never_removed
  (whisper_model : AudioSegment -> string -> outcome string)
  (video_path output_csv profanity_csv language : string) (w w' : world) :
  main whisper_model video_path output_csv profanity_csv language w = (Return tt, w') ->
  exists a,
    Os.stat w (Named video_path) = Some (Video (Some a)) /\
    files w' !! Temp (next_temp w) = Some (Audio a).
Proof.
  intros Hmain.
  destruct (main_return_inv whisper_model _ _ _ _ _ _ Hmain)
    as (a & profane_words & w1 & chunks & w2 & Hvideo & Hload & Hchunks & Hsave & ->).
  exists a. split; [exact Hvideo|].
  destruct (load_frame _ _ _ _ Hload) as (_ & _ & Hn & _).
  destruct (after_chunks_frame language chunks (ready_world a w1)) as (_ & _ & _ & _ & Hf).
  simpl. rewrite (keeps_save_to_csv _ _ _ _ _ Hsave). simpl.
  rewrite Hf.
  - simpl. rewrite Hn. apply lookup_insert_eq.
  - intros n Hp. injection Hp as <-. simpl. lia.
Qed.

(** C6 fails on the code: the temporary file that receives the extracted
    audio is made with [delete=False] and nothing removes it.  It is
    still there when [main] returns after saving, and when [main] is left
    by an exception of the engine. *)
Theorem C6_extracted_audio_left_behind :
  (fst (main silent_engine "clip.mp4" "output/labels.csv" "none.csv" "en" clip_world)
     = Return tt /\
   files (snd (main silent_engine "clip.mp4" "output/labels.csv" "none.csv" "en"
                 clip_world)) !! Temp 0
     = Some (Audio (silence 3000))) /\
  (fst (main broken_engine "clip.mp4" "output/labels.csv" "none.csv" "en" clip_world)
     = Raise RuntimeError /\
   files (snd (main broken_engine "clip.mp4" "output/labels.csv" "none.csv" "en"
                 clip_world)) !! Temp 0
     = Some (Audio (silence 3000))).
Proof. vm_compute. repeat split; reflexivity. Qed.




(** * Further properties of the script *)

(** ** The loader, row by row *)

Section LoaderRows.

Lemma foldl_none_lookup (keys : list string) :
  forall (d : gmap string (option string)) (k : string),
    foldl (fun d key => <[key := None]> d) d keys !! k =
    if decide (k ∈ keys) then Some None else d !! k.
Proof.
  induction keys as [|key keys IH]; intros d k; simpl.
  - destruct (decide (k ∈ [])) as [H|_]; [inversion H | reflexivity].
  - rewrite IH.
    destruct (decide (k ∈ keys)) as [Hin|Hout].
    + rewrite decide_True by (right; exact Hin). reflexivity.
    + destruct (decide (k = key)) as [->|Hne].
      * rewrite decide_True by left. apply lookup_insert_eq.
      * rewrite decide_False by (rewrite elem_of_cons; tauto).
        apply lookup_insert_ne. congruence.
Qed.

Lemma dict_lookup_from {V : Type} (pairs : list (string * V)) :
  forall (d : gmap string V) (k : string) (v : V),
    foldl (fun d kv => <[fst kv := snd kv]> d) d pairs !! k = Some v ->
    d !! k = Some v \/ (k, v) ∈ pairs.
Proof.
  induction pairs as [|[k0 v0] pairs IH]; intros d k v H; simpl in H.
  - left. exact H.
  - destruct (IH _ _ _ H) as [Hd|Hin].
    + destruct (decide (k0 = k)) as [->|Hne].
      * rewrite lookup_insert_eq in Hd. injection Hd as ->. right. left.
      * rewrite lookup_insert_ne in Hd by exact Hne. left. exact Hd.
    + right. right. exact Hin.
Qed.

Lemma dict_lookup {V : Type} (pairs : list (string * V)) (k : string) (v : V) :
  Lib.dict pairs !! k = Some v -> (k, v) ∈ pairs.
Proof.
  intros H. destruct (dict_lookup_from pairs ∅ k v H) as [He|Hin]; [|exact Hin].
  rewrite lookup_empty in He. discriminate.
Qed.

Lemma zip_some_member (fieldnames row : list string) (k : string) (v : option string) :
  (k, v) ∈ zip fieldnames (Some <$> row) -> k ∈ fieldnames /\ exists cell, v = Some cell.
Proof.
  revert row. induction fieldnames as [|f fs IH]; intros row H; [inversion H|].
  destruct row as [|c row]; [inversion H|].
  simpl in H. apply elem_of_cons in H as [H|H].
  - injection H as -> ->. split; [left | eauto].
  - destruct (IH _ H) as [Hk Hv]. split; [right; exact Hk | exact Hv].
Qed.

(** A row has [None] in the [Profanity] column exactly when it stops
    before a column of that name. *)
Lemma dict_row_none (fieldnames row : list string) :
  Lib.dict_row fieldnames row !! "Profanity" = Some None <->
  "Profanity" ∈ drop (length row) fieldnames.
Proof.
  unfold Lib.dict_row. rewrite foldl_none_lookup.
  destruct (decide ("Profanity" ∈ drop (length row) fieldnames)) as [Hin|Hout].
  - tauto.
  - split; [|contradiction]. intros H.
    apply dict_lookup, zip_some_member in H as [_ [cell Hc]]. discriminate.
Qed.

(** A header without the column gives rows without the key. *)
Lemma dict_row_absent (fieldnames row : list string) :
  "Profanity" ∉ fieldnames -> Lib.dict_row fieldnames row !! "Profanity" = None.
Proof.
  intros Hout. unfold Lib.dict_row. rewrite foldl_none_lookup.
  rewrite decide_False.
  - destruct (Lib.dict (zip fieldnames (Some <$> row)) !! "Profanity") as [v|] eqn:H;
      [|reflexivity].
    apply dict_lookup, zip_some_member in H as [Hin _]. contradiction.
  - intros Hin. apply Hout. apply (subseteq_drop (length row) fieldnames), Hin.
Qed.

(** The loop stores the normalised cells and nothing else. *)
Lemma add_profanities_exact (rows : list (gmap string (option string))) :
  forall (acc out : gset string),
    add_profanities acc rows = Return out ->
    out = list_to_set (normalise <$> profanity_cells rows) ∪ acc.
Proof.
  induction rows as [|row rows IH]; intros acc out H.
  - injection H as <-. simpl. rewrite (left_id_L ∅ (∪)). reflexivity.
  - simpl in H. unfold add_profanity in H. unfold profanity_cells. simpl.
    destruct (row !! "Profanity") as [[v|]|]; [| discriminate |].
    + rewrite (IH _ _ H). simpl. fold (profanity_cells rows).
      set (stored := list_to_set (normalise <$> profanity_cells rows) : gset string).
      rewrite (comm_L (∪) {[normalise v]} stored), <- (assoc_L (∪) stored).
      reflexivity.
    + rewrite (IH _ _ H). fold (profanity_cells rows). reflexivity.
Qed.

(** The loop raises exactly when some row has [None] in the column, and
    then it is [AttributeError]. *)
Lemma add_profanities_raises (rows : list (gmap string (option string))) :
  forall (acc : gset string) (e : exn),
    add_profanities acc rows = Raise e <->
    e = AttributeError /\ exists row, row ∈ rows /\ row !! "Profanity" = Some None.
Proof.
  induction rows as [|row rows IH]; intros acc e.
  - simpl. split; [discriminate|]. intros (_ & row & Hin & _). inversion Hin.
  - simpl. unfold add_profanity.
    destruct (row !! "Profanity") as [[v|]|] eqn:Hrow.
    + rewrite IH. split; intros (He & r & Hin & Hr); (split; [exact He|]).
      * exists r. split; [right; exact Hin | exact Hr].
      * apply elem_of_cons in Hin as [->|Hin]; [congruence|]. eauto.
    + split.
      * intros H. injection H as <-. split; [reflexivity|].
        exists row. split; [left | exact Hrow].
      * intros (-> & _). reflexivity.
    + rewrite IH. split; intros (He & r & Hin & Hr); (split; [exact He|]).
      * exists r. split; [right; exact Hin | exact Hr].
      * apply elem_of_cons in Hin as [->|Hin]; [congruence|]. eauto.
Qed.

Lemma load_csv_run (csv_path : string) (w : world) (rows : list (list string)) :
  Os.stat w (Named csv_path) = Some (Csv rows) ->
  load_profane_words_from_csv csv_path w =
  match add_profanities ∅ (Lib.dict_reader rows) with
  | Return profane_words => (Return profane_words, printed (LexiconLoaded csv_path) w)
  | Raise e => (Raise e, w)
  end.
Proof.
  intros Hst.
  unfold load_profane_words_from_csv, bind, Os.exists_, Lib.read_csv, lift, Os.print, ret.
  rewrite Hst. rewrite bool_decide_eq_true_2 by eauto.
  cbv beta iota. rewrite Hst.
  destruct (add_profanities ∅ (Lib.dict_reader rows)); reflexivity.
Qed.

End LoaderRows.

(** ** Normal forms of strings *)

Section Normal.

Lemma is_space_lower (c : ascii) : Str.is_space (Str.lower_char c) = Str.is_space c.
Proof. destruct c as [[] [] [] [] [] [] [] []]; reflexivity. Qed.

Lemma lower_char_twice (c : ascii) : Str.lower_char (Str.lower_char c) = Str.lower_char c.
Proof. destruct c as [[] [] [] [] [] [] [] []]; reflexivity. Qed.

Lemma lower_twice (s : string) : Str.lower (Str.lower s) = Str.lower s.
Proof.
  induction s as [|c s IH]; [reflexivity|].
  simpl. rewrite lower_char_twice, IH. reflexivity.
Qed.

Lemma lstrip_lower (s : string) : Str.lstrip (Str.lower s) = Str.lower (Str.lstrip s).
Proof.
  induction s as [|c s IH]; [reflexivity|].
  simpl. rewrite is_space_lower. destruct (Str.is_space c); [exact IH | reflexivity].
Qed.

Lemma rstrip_lower (s : string) : Str.rstrip (Str.lower s) = Str.lower (Str.rstrip s).
Proof.
  induction s as [|c s IH]; [reflexivity|].
  simpl. rewrite IH, is_space_lower.
  destruct (Str.rstrip s); simpl; [destruct (Str.is_space c)|]; reflexivity.
Qed.

Lemma strip_lower (s : string) : Str.strip (Str.lower s) = Str.lower (Str.strip s).
Proof. unfold Str.strip. rewrite lstrip_lower, rstrip_lower. reflexivity. Qed.

Lemma lstrip_starts_clean (s : string) : starts_clean (Str.lstrip s).
Proof.
  induction s as [|c s IH]; [exact I|].
  simpl. destruct (Str.is_space c) eqn:Hc; [exact IH | exact Hc].
Qed.

Lemma lstrip_clean (s : string) : starts_clean s -> Str.lstrip s = s.
Proof. destruct s as [|c s]; simpl; [reflexivity | intros ->; reflexivity]. Qed.

Lemma rstrip_starts_clean (s : string) : starts_clean s -> starts_clean (Str.rstrip s).
Proof.
  destruct s as [|c s]; simpl; [tauto|]. intros Hc.
  destruct (Str.rstrip s); [rewrite Hc|]; exact Hc.
Qed.

Lemma rstrip_twice (s : string) : Str.rstrip (Str.rstrip s) = Str.rstrip s.
Proof.
  induction s as [|c s IH]; [reflexivity|].
  simpl. destruct (Str.rstrip s) as [|d r] eqn:Hr.
  - destruct (Str.is_space c) eqn:Hc; [reflexivity|]. simpl. rewrite Hc. reflexivity.
  - change (Str.rstrip (String c (String d r)))
      with (match Str.rstrip (String d r) with
            | EmptyString => if Str.is_space c then EmptyString else String c EmptyString
            | x => String c x
            end).
    rewrite IH. reflexivity.
Qed.

Lemma strip_twice (s : string) : Str.strip (Str.strip s) = Str.strip s.
Proof.
  unfold Str.strip.
  rewrite (lstrip_clean (Str.rstrip (Str.lstrip s)))
    by apply rstrip_starts_clean, lstrip_starts_clean.
  apply rstrip_twice.
Qed.

Lemma normalise_fixed (cell : string) :
  Str.lower (normalise cell) = normalise cell /\
  Str.strip (normalise cell) = normalise cell.
Proof.
  unfold normalise. split; [apply lower_twice|].
  rewrite strip_lower, strip_twice. reflexivity.
Qed.

End Normal.

(** ** What the loader returns *)

Section LoaderResults.

Lemma add_profanities_skip (rows : list (gmap string (option string))) (acc : gset string) :
  (forall row, row ∈ rows -> row !! "Profanity" = None) ->
  add_profanities acc rows = Return acc.
Proof.
  induction rows as [|row rows IH]; intros Hnone; [reflexivity|].
  simpl. unfold add_profanity. rewrite (Hnone row) by left.
  apply IH. intros r Hr. apply Hnone. right. exact Hr.
Qed.

Lemma nonblank_spec (row : list string) : Lib.nonblank row = true <-> row <> [].
Proof. destruct row; simpl; split; congruence. Qed.

Lemma dict_reader_member (fieldnames : list string) (rest : list (list string))
  (d : gmap string (option string)) :
  d ∈ Lib.dict_reader (fieldnames :: rest) <->
  exists row, row ∈ rest /\ row <> [] /\ d = Lib.dict_row fieldnames row.
Proof.
  simpl. rewrite list_elem_of_fmap. split.
  - intros (row & -> & Hin). apply list_elem_of_In, filter_In in Hin as [Hin Hnb].
    exists row. split; [apply list_elem_of_In, Hin|].
    split; [apply nonblank_spec, Hnb | reflexivity].
  - intros (row & Hin & Hne & ->). exists row. split; [reflexivity|].
    apply list_elem_of_In, filter_In. split; [apply list_elem_of_In, Hin|].
    apply nonblank_spec, Hne.
Qed.

(** Every way for the loader to return goes through the loop on the rows
    of some table, the empty table when there is no file. *)
Lemma load_return_rows (csv_path : string) (w w' : world) (profane_words : gset string) :
  load_profane_words_from_csv csv_path w = (Return profane_words, w') ->
  exists rows, add_profanities ∅ (Lib.dict_reader rows) = Return profane_words.
Proof.
  unfold load_profane_words_from_csv, bind, Os.exists_, Lib.read_csv, lift, Os.print, ret.
  destruct (bool_decide (is_Some (Os.stat w (Named csv_path)))).
  - destruct (Os.stat w (Named csv_path)) as [[| |rows| |]|]; try discriminate.
    + intros H. exists []. simpl in *. injection H as <- _. reflexivity.
    + destruct (add_profanities ∅ (Lib.dict_reader rows)) eqn:Hadd; [|discriminate].
      intros H. injection H as <- _. exists rows. exact Hadd.
  - intros H. injection H as <- _. exists []. reflexivity.
Qed.

End LoaderResults.

(** A source that does not exist gives the empty lexicon, one message
    and no failure; with that lexicon every text gets label 0. *)
Theorem load_missing_source_labels_nothing (csv_path : string) (w : world) :
  Os.stat w (Named csv_path) = None ->
  exists profane_words,
    load_profane_words_from_csv csv_path w =
      (Return profane_words, printed (LexiconNotFound csv_path) w) /\
    profane_words = ∅ /\
    forall text, label_of text profane_words = 0.
Proof.
  intros Hst. exists ∅. split; [apply load_missing, Hst|]. split; [reflexivity|].
  intros text. unfold label_of, contains_profane_words.
  rewrite elements_empty. reflexivity.
Qed.

Lemma load_missing_source_labels_nothing_witness :
  exists profane_words,
    load_profane_words_from_csv "none.csv" clip_world =
      (Return profane_words, printed (LexiconNotFound "none.csv") clip_world) /\
    profane_words = ∅ /\
    forall text, label_of text profane_words = 0.
Proof.
  apply (load_missing_source_labels_nothing "none.csv" clip_world).
  vm_compute. reflexivity.
Defined.



(** Every term of a lexicon the loader returns is in lower case and has
    no white space around it. *)
Theorem loaded_terms_are_normalised (csv_path : string) (w w' : world)
  (profane_words : gset string) :
  load_profane_words_from_csv csv_path w = (Return profane_words, w') ->
  forall term, term ∈ profane_words ->
    Str.lower term = term /\ Str.strip term = term.
Proof.
  intros Hload term Hin.
  destruct (load_return_rows _ _ _ _ Hload) as [rows Hadd].
  rewrite (add_profanities_exact _ _ _ Hadd) in Hin.
  rewrite elem_of_union, elem_of_list_to_set, list_elem_of_fmap in Hin.
  destruct Hin as [(cell & -> & _)|Hemp]; [|inversion Hemp].
  apply normalise_fixed.
Qed.

Lemma loaded_terms_are_normalised_witness :
  Str.lower "darn" = "darn" /\ Str.strip "darn" = "darn".
Proof.
  apply (loaded_terms_are_normalised "words.csv" full_rows_world
           (printed (LexiconLoaded "words.csv") full_rows_world)
           {[ "heck"; "darn" ]}).
  - vm_compute. reflexivity.
  - apply elem_of_union. right. apply elem_of_singleton. reflexivity.
Defined.

(** When the header has no [Profanity] column every row is passed over:
    the lexicon is empty and the load is reported as done. *)
Theorem load_without_profanity_column (csv_path : string) (w : world)
  (fieldnames : list string) (rest : list (list string)) :
  Os.stat w (Named csv_path) = Some (Csv (fieldnames :: rest)) ->
  "Profanity" ∉ fieldnames ->
  load_profane_words_from_csv csv_path w =
  (Return ∅, printed (LexiconLoaded csv_path) w).
Proof.
  intros Hst Hout. rewrite (load_csv_run _ _ _ Hst).
  rewrite add_profanities_skip; [reflexivity|].
  intros d Hd. apply dict_reader_member in Hd as (row & _ & _ & ->).
  apply dict_row_absent, Hout.
Qed.

Lemma load_without_profanity_column_witness :
  load_profane_words_from_csv "other.csv" full_rows_world =
  (Return ∅, printed (LexiconLoaded "other.csv") full_rows_world).
Proof.
  apply (load_without_profanity_column "other.csv" full_rows_world ["Word"] [["mild"]]).
  - vm_compute. reflexivity.
  - rewrite elem_of_cons, elem_of_nil. intros [H|[]]. discriminate.
Defined.

(** On a table the loader fails exactly when some data row that is not
    blank stops before a [Profanity] column of the header; the failure
    is [AttributeError] and nothing has been printed or changed. *)
Theorem load_fails_iff_short_row (csv_path : string) (w : world)
  (fieldnames : list string) (rest : list (list string)) :
  Os.stat w (Named csv_path) = Some (Csv (fieldnames :: rest)) ->
  ((exists row, row ∈ rest /\ short_row fieldnames row) <->
   load_profane_words_from_csv csv_path w = (Raise AttributeError, w)) /\
  (forall e w', load_profane_words_from_csv csv_path w = (Raise e, w') ->
                e = AttributeError /\ w' = w).
Proof.
  intros Hst. rewrite (load_csv_run _ _ _ Hst).
  pose proof (add_profanities_raises (Lib.dict_reader (fieldnames :: rest)) ∅) as Hraise.
  destruct (add_profanities ∅ (Lib.dict_reader (fieldnames :: rest))) as [out|e0] eqn:Hadd.
  - split.
    + split; [|discriminate].
      intros (row & Hin & Hne & Hshort). exfalso.
      assert (Hr : @Return (gset string) out = Raise AttributeError); [|discriminate].
      apply Hraise. split; [reflexivity|].
      exists (Lib.dict_row fieldnames row). split.
      * apply dict_reader_member. exists row. auto.
      * apply dict_row_none, Hshort.
    + intros e w' H. discriminate.
  - destruct (proj1 (Hraise e0) eq_refl) as (-> & d & Hd & Hnone).
    split.
    + split; [reflexivity|]. intros _.
      apply dict_reader_member in Hd as (row & Hin & Hne & ->).
      exists row. split; [exact Hin|]. split; [exact Hne|].
      apply dict_row_none, Hnone.
    + intros e w' H. injection H as <- <-. split; reflexivity.
Qed.

Lemma load_fails_iff_short_row_witness :
  ((exists row, row ∈ [["mild"; "Heck "]; ["strong"]] /\
                short_row ["Word"; "Profanity"] row) <->
   load_profane_words_from_csv "words.csv" short_row_world
     = (Raise AttributeError, short_row_world)) /\
  (forall e w', load_profane_words_from_csv "words.csv" short_row_world = (Raise e, w') ->
                e = AttributeError /\ w' = short_row_world).
Proof.
  apply (load_fails_iff_short_row "words.csv" short_row_world
           ["Word"; "Profanity"] [["mild"; "Heck "]; ["strong"]]).
  vm_compute. reflexivity.
Defined.

Lemma load_only_prints_aux (csv_path : string) (w w' : world) :
  (forall e, load_profane_words_from_csv csv_path w = (Raise e, w') -> w' = w) /\
  (forall profane_words,
      load_profane_words_from_csv csv_path w = (Return profane_words, w') ->
      w' = printed (LexiconLoaded csv_path) w \/
      (w' = printed (LexiconNotFound csv_path) w /\ profane_words = ∅)).
Proof.
  unfold load_profane_words_from_csv, bind, Os.exists_, Lib.read_csv, lift, Os.print, ret.
  destruct (bool_decide (is_Some (Os.stat w (Named csv_path)))).
  - destruct (Os.stat w (Named csv_path)) as [[| |rows| |]|]; cbv beta iota;
      try (split; [intros e H; injection H as _ <-; reflexivity | intros L H; discriminate]).
    + split; [intros e H; discriminate|].
      intros L H. simpl in H. injection H as _ <-. left. reflexivity.
    + destruct (add_profanities ∅ (Lib.dict_reader rows)).
      * split; [intros e H; discriminate|].
        intros L H. injection H as _ <-. left. reflexivity.
      * split; [intros e' H; injection H as _ <-; reflexivity | intros L H; discriminate].
  - split; [intros e H; discriminate|].
    intros L H. injection H as <- <-. right. split; reflexivity.
Qed.

(** Whatever the path and the world, the loader only reads and prints:
    when it raises, the world is as before; when it returns, one line
    has been printed and nothing else has changed. *)
Theorem load_only_prints (csv_path : string) (w w' : world) :
  (forall e, load_profane_words_from_csv csv_path w = (Raise e, w') -> w' = w) /\
  (forall profane_words,
      load_profane_words_from_csv csv_path w = (Return profane_words, w') ->
      w' = printed (LexiconLoaded csv_path) w \/
      (w' = printed (LexiconNotFound csv_path) w /\ profane_words = ∅)).
Proof. apply load_only_prints_aux. Qed.

(** ** The classifier on arbitrary terms *)

Section Occurrences.

Lemma last_or_app (a b : string) :
  forall prev, last_or prev (a +:+ b) = last_or (last_or prev a) b.
Proof. induction a as [|c a IH]; intros prev; simpl; [reflexivity | apply IH]. Qed.

(** The escaped term matches exactly the term itself. *)
Lemma match_escape (term : string) (pat : Re.pattern) :
  forall (prev : option ascii) (s : string),
    Re.match_here (Re.escape term ++ pat)%list prev s = true <->
    exists post, s = term +:+ post /\ Re.match_here pat (last_or prev term) post = true.
Proof.
  induction term as [|c term IH]; intros prev s.
  - simpl. split; [intros H; exists s; auto | intros (post & -> & H); exact H].
  - change (Re.match_here (Re.escape (String c term) ++ pat)%list prev s)
      with (match s with
            | String d s' => Ascii.eqb c d &&
                             Re.match_here (Re.escape term ++ pat)%list (Some d) s'
            | EmptyString => false
            end).
    destruct s as [|d s']; [split; [discriminate | intros (post & H & _); discriminate]|].
    rewrite andb_true_iff, IH. split.
    + intros [Hcd (post & -> & Hm)]. apply Ascii.eqb_eq in Hcd as ->.
      exists post. split; [reflexivity | exact Hm].
    + intros (post & Heq & Hm). simpl in Heq. injection Heq as -> ->.
      split; [apply Ascii.eqb_refl|]. exists post. split; [reflexivity | exact Hm].
Qed.

(** Searching tries every position of the text. *)
Lemma search_from_positions (pat : Re.pattern) (s : string) :
  forall prev : option ascii,
    Re.search_from pat prev s = true <->
    exists pre rest, s = pre +:+ rest /\ Re.match_here pat (last_or prev pre) rest = true.
Proof.
  induction s as [|d s IH]; intros prev.
  - simpl. rewrite orb_false_r. split.
    + intros H. exists EmptyString, EmptyString. auto.
    + intros (pre & rest & Heq & H). destruct pre; [|discriminate].
      change (EmptyString = rest) in Heq. subst rest. exact H.
  - change (Re.search_from pat prev (String d s))
      with (Re.match_here pat prev (String d s) || Re.search_from pat (Some d) s).
    rewrite orb_true_iff, IH. split.
    + intros [H|(pre & rest & -> & H)].
      * exists EmptyString, (String d s). auto.
      * exists (String d pre), rest. auto.
    + intros (pre & rest & Heq & H). destruct pre as [|c pre].
      * left. change (String d s = rest) in Heq. subst rest. exact H.
      * right. change (String d s = String c (pre +:+ rest)) in Heq.
        injection Heq as -> ->. exists pre, rest. auto.
Qed.

Lemma search_occurs (term s : string) :
  Re.search (word_pattern term) s = true <-> occurs_bounded term s.
Proof.
  unfold Re.search, occurs_bounded. rewrite search_from_positions.
  split.
  - intros (pre & rest & -> & Hm).
    unfold word_pattern in Hm.
    change (Re.match_here ([Re.WordBoundary] ++ Re.escape term ++ [Re.WordBoundary])%list
              (last_or None pre) rest)
      with (Re.at_boundary (last_or None pre) rest &&
            Re.match_here (Re.escape term ++ [Re.WordBoundary])%list (last_or None pre) rest)
      in Hm.
    apply andb_prop in Hm as [Hb Hm].
    apply match_escape in Hm as (post & -> & Hend).
    simpl in Hend. rewrite andb_true_r in Hend.
    exists pre, post. split; [reflexivity|]. split; [exact Hb|].
    rewrite last_or_app. exact Hend.
  - intros (pre & post & -> & Hb & He).
    exists pre, (term +:+ post). split; [reflexivity|].
    unfold word_pattern.
    change (Re.match_here ([Re.WordBoundary] ++ Re.escape term ++ [Re.WordBoundary])%list
              (last_or None pre) (term +:+ post))
      with (Re.at_boundary (last_or None pre) (term +:+ post) &&
            Re.match_here (Re.escape term ++ [Re.WordBoundary])%list
              (last_or None pre) (term +:+ post)).
    rewrite Hb. simpl andb. apply match_escape.
    exists post. split; [reflexivity|]. simpl. rewrite andb_true_r.
    rewrite <- last_or_app. exact He.
Qed.

Lemma all_chars_app (p : ascii -> bool) (a b : string) :
  Str.all_chars p (a +:+ b) = Str.all_chars p a && Str.all_chars p b.
Proof.
  induction a as [|c a IH]; simpl; [reflexivity|].
  rewrite IH, andb_assoc. reflexivity.
Qed.

Lemma lower_not_upper (s : string) : Str.all_chars not_upper (Str.lower s) = true.
Proof.
  induction s as [|c s IH]; [reflexivity|].
  simpl. rewrite IH, andb_true_r.
  destruct c as [[] [] [] [] [] [] [] []]; reflexivity.
Qed.



End Occurrences.


(** The terms are judged one by one: a lexicon flags a text exactly when
    one of its parts does, and the empty lexicon flags nothing. *)
Theorem classifier_splits_over_union (text : string) (lexicon1 lexicon2 : gset string) :
  contains_profane_words text (lexicon1 ∪ lexicon2) =
    contains_profane_words text lexicon1 || contains_profane_words text lexicon2 /\
  contains_profane_words text ∅ = false.
Proof.
  split.
  - apply eq_true_iff_eq. rewrite orb_true_iff, !contains_profane_words_spec.
    split.
    + intros (term & Hin & H). apply elem_of_union in Hin as [Hin|Hin];
        [left | right]; exists term; auto.
    + intros [(term & Hin & H)|(term & Hin & H)]; exists term;
        (split; [apply elem_of_union; auto | exact H]).
  - unfold contains_profane_words. rewrite elements_empty. reflexivity.
Qed.

(** The text is lower-cased but the terms are not: a lexicon whose terms
    all have an upper-case letter flags no text at all. *)
Theorem upper_case_terms_never_match (text : string) (profane_words : gset string) :
  (forall term, term ∈ profane_words -> Str.all_chars not_upper term = false) ->
  label_of text profane_words = 0.
Proof.
  intros Hupper. unfold label_of.
  destruct (contains_profane_words text profane_words) eqn:Hc; [|reflexivity].
  apply contains_profane_words_spec in Hc as (term & Hin & Hm).
  apply search_occurs in Hm as (pre & post & Heq & _).
  pose proof (lower_not_upper text) as Hlow.
  rewrite Heq, !all_chars_app in Hlow.
  apply andb_prop in Hlow as [_ Hlow]. apply andb_prop in Hlow as [Hterm _].
  rewrite (Hupper term Hin) in Hterm. discriminate.
Qed.

Lemma upper_case_terms_never_match_witness : label_of "you ass" {[ "Ass" ]} = 0.
Proof.
  apply (upper_case_terms_never_match "you ass" {[ "Ass" ]}).
  intros term Hin. apply elem_of_singleton in Hin. subst term. reflexivity.
Defined.



(** ** The transcription loop as a whole *)

Section LoopRuns.

Variable whisper_model : AudioSegment -> string -> outcome string.



End LoopRuns.





(** ** What saving prints and what it leaves alone *)

Section Quiet.

Lemma quiet_ret {A : Type} (a : A) : quiet (ret a).
Proof. intros w w' r H. injection H as <- <-. auto. Qed.

Lemma quiet_raise {A : Type} (e : exn) : quiet (@raise A e).
Proof. intros w w' r H. injection H as <- <-. auto. Qed.

Lemma quiet_bind {A B : Type} (m : M A) (k : A -> M B) :
  quiet m -> (forall a, quiet (k a)) -> quiet (bind m k).
Proof.
  intros Hm Hk w w' r H. unfold bind in H.
  destruct (m w) as [[a|e] w1] eqn:Hmw.
  - destruct (Hm _ _ _ Hmw) as (C1 & R1 & N1 & E1).
    destruct (Hk a _ _ _ H) as (C2 & R2 & N2 & E2).
    rewrite C2, R2, N2, E2. auto.
  - injection H as <- <-. apply (Hm _ _ _ Hmw).
Qed.

Lemma quiet_try_except {A : Type} (m : M A) (handler : exn -> M A) :
  quiet m -> (forall e, quiet (handler e)) -> quiet (try_except m handler).
Proof.
  intros Hm Hh w w' r H. unfold try_except in H.
  destruct (m w) as [[a|e] w1] eqn:Hmw.
  - injection H as <- <-. apply (Hm _ _ _ Hmw).
  - destruct (Hm _ _ _ Hmw) as (C1 & R1 & N1 & E1).
    destruct (Hh e _ _ _ H) as (C2 & R2 & N2 & E2).
    rewrite C2, R2, N2, E2. auto.
Qed.

Lemma quiet_for_each {A : Type} (xs : list A) (body : A -> M unit) :
  (forall x, quiet (body x)) -> quiet (for_each xs body).
Proof.
  intros Hbody. induction xs as [|x xs IH]; [apply quiet_ret|].
  apply quiet_bind; [apply Hbody | intros _; exact IH].
Qed.

Lemma quiet_exists (p : path) : quiet (Os.exists_ p).
Proof. intros w w' r H. injection H as <- <-. auto. Qed.

Lemma quiet_isdir (p : path) : quiet (Os.isdir p).
Proof. intros w w' r H. injection H as <- <-. auto. Qed.

Lemma quiet_mkdir (name : string) : quiet (Os.mkdir name).
Proof.
  intros w w' r H. unfold Os.mkdir in H.
  destruct (Os.stat w (Named name)); [injection H as <- <-; auto|].
  destruct (Os.creatable w (Named name)); injection H as <- <-; simpl; auto.
Qed.

Lemma quiet_open_write (p : path) : quiet (Os.open_write p).
Proof.
  intros w w' r H. unfold Os.open_write in H.
  destruct (Os.stat w p) as [[]|];
    try destruct (Os.write_protected w p);
    try destruct (Os.creatable w p);
    injection H as <- <-; simpl; auto.
Qed.

Lemma quiet_writerow (p : path) (row : list string) : quiet (Lib.writerow p row).
Proof.
  intros w w' r H. unfold Lib.writerow in H.
  destruct (files w !! p) as [[]|]; injection H as <- <-; simpl; auto.
Qed.

Lemma quiet_makedirs_body (again : string -> M unit) (name : string) (exist_ok : bool) :
  (forall head, quiet (again head)) -> quiet (Os.makedirs_body again name exist_ok).
Proof.
  intros Hagain. unfold Os.makedirs_body.
  destruct (Os.head_tail name) as [head tail].
  assert (Hleaf : quiet (try_except (Os.mkdir name)
                           (fun e => bind (Os.isdir (Named name))
                                       (fun d => if negb exist_ok || negb d
                                                 then raise e else ret tt)))).
  { apply quiet_try_except; [apply quiet_mkdir|].
    intros e. apply quiet_bind; [apply quiet_isdir|].
    intros d. destruct (negb exist_ok || negb d); [apply quiet_raise | apply quiet_ret]. }
  apply quiet_bind; [apply quiet_exists | intros there].
  destruct (bool_decide (head <> "") && bool_decide (tail <> "") && negb there);
    [|exact Hleaf].
  apply quiet_bind.
  - apply quiet_try_except; [apply Hagain|].
    intros e. destruct (decide (e = FileExistsError)); [apply quiet_ret | apply quiet_raise].
  - intros _. destruct (decide (tail = ".")); [apply quiet_ret | exact Hleaf].
Qed.

Lemma quiet_makedirs (name : string) (exist_ok : bool) : quiet (Os.makedirs name exist_ok).
Proof.
  unfold Os.makedirs. generalize (String.length name) as fuel. intros fuel. revert name.
  induction fuel as [|fuel IH]; intros name;
    cbn [Os.makedirs_rec]; apply quiet_makedirs_body; intros head.
  - apply quiet_raise.
  - apply IH.
Qed.

Lemma print_at_end (line : message) : prints_at_end line (Os.print line).
Proof.
  intros w w' r H. injection H as <- <-. simpl.
  split; [reflexivity|]. split; [reflexivity|]. split; [reflexivity|]. left. auto.
Qed.

Lemma quiet_then_print {A : Type} (line : message) (m : M A) (k : A -> M unit) :
  quiet m -> (forall a, prints_at_end line (k a)) -> prints_at_end line (bind m k).
Proof.
  intros Hm Hk w w' r H. unfold bind in H.
  destruct (m w) as [[a|e] w1] eqn:Hmw; destruct (Hm _ _ _ Hmw) as (C1 & R1 & N1 & E1).
  - destruct (Hk a _ _ _ H) as (R2 & N2 & E2 & Hend).
    rewrite R2, N2, E2, <- C1. auto.
  - injection H as <- <-. repeat (split; [assumption|]). right. eauto.
Qed.

Lemma save_block_prints_at_end (transcriptions : list record) (output_file : string) :
  prints_at_end (ResultsSaved output_file) (save_block transcriptions output_file).
Proof.
  unfold save_block.
  apply quiet_then_print; [apply quiet_makedirs | intros _].
  apply quiet_then_print; [apply quiet_open_write | intros _].
  apply quiet_then_print; [apply quiet_writerow | intros _].
  apply quiet_then_print; [|intros _; apply print_at_end].
  apply quiet_for_each. intros row. apply quiet_writerow.
Qed.

(** The shape of every run of [save_to_csv]. *)
Lemma save_to_csv_shape (transcriptions : list record) (output_file : string) (w : world) :
  exists w' line,
    save_to_csv transcriptions output_file w = (Return tt, w') /\
    console w' = (console w ++ [line])%list /\ save_line output_file line /\
    readonly w' = readonly w /\ next_temp w' = next_temp w /\
    engine_calls w' = engine_calls w.
Proof.
  destruct (save_block transcriptions output_file w) as [r w1] eqn:Hblock.
  destruct (save_block_prints_at_end _ _ _ _ _ Hblock)
    as (R & N & E & [[-> C]|(e & -> & C)]).
  - exists w1, (ResultsSaved output_file).
    split; [apply save_to_csv_of_return, Hblock|].
    unfold save_line. auto 6.
  - exists (printed (failure_message output_file e) w1), (failure_message output_file e).
    split; [apply save_to_csv_of_raise, Hblock|].
    simpl. rewrite C. split; [reflexivity|]. split; [|auto].
    unfold save_line, failure_message.
    destruct (decide (e = PermissionError)); eauto.
Qed.

Lemma dict_row_three (a b c : string) :
  Lib.dict_row fieldnames [a; b; c] =
  <["label" := Some c]> (<["text" := Some b]> (<["segment" := Some a]> ∅)).
Proof. reflexivity. Qed.

Lemma dict_reader_report (transcriptions : list record) :
  Lib.dict_reader (report_rows transcriptions) =
  (fun r => <["label" := Some (pretty (label r))]>
              (<["text" := Some (text r)]> (<["segment" := Some (segment r)]> ∅)))
    <$> transcriptions.
Proof.
  unfold report_rows.
  change (Lib.dict_reader (fieldnames :: (row_fields <$> transcriptions)))
    with (Lib.dict_row fieldnames <$> List.filter Lib.nonblank (row_fields <$> transcriptions)).
  induction transcriptions as [|r rs IH]; [reflexivity|].
  rewrite !fmap_cons. cbn [List.filter row_fields Lib.nonblank].
  rewrite fmap_cons, IH. reflexivity.
Qed.

Lemma save_block_name (transcriptions : list record) (output_file : string)
  (w w' : world) :
  save_block transcriptions output_file w = (Return tt, w') ->
  forall w0, Os.stat w0 (Named output_file) = files w0 !! Named output_file.
Proof.
  unfold save_block. intros H.
  apply bind_return_inv in H as ([] & w1 & _ & H).
  apply bind_return_inv in H as ([] & w2 & Hopen & _).
  intros w0. unfold Os.open_write, Os.creatable, Os.stat in *.
  destruct (decide (output_file = "")); [discriminate|].
  destruct (decide (output_file = "." \/ output_file = "/")); [discriminate|].
  reflexivity.
Qed.

End Quiet.

(** Every call of [save_to_csv] returns after printing exactly one line,
    that the results were saved, that permission was denied, or the
    generic error; it draws no temporary name, makes no engine call and
    leaves every temporary file as it was. *)
Theorem save_prints_one_line (transcriptions : list record) (output_file : string)
  (w : world) :
  exists w' line,
    save_to_csv transcriptions output_file w = (Return tt, w') /\
    console w' = (console w ++ [line])%list /\
    save_line output_file line /\
    next_temp w' = next_temp w /\
    engine_calls w' = engine_calls w /\
    forall n, files w' !! Temp n = files w !! Temp n.
Proof.
  destruct (save_to_csv_shape transcriptions output_file w)
    as (w' & line & Hrun & Hc & Hl & _ & Hn & He).
  exists w', line. repeat (split; [assumption|]).
  apply (keeps_save_to_csv _ _ _ _ _ Hrun).
Qed.

(** A report that was saved reads back as it was written: opening the
    destination gives the header and one row per record, and
    [csv.DictReader] turns them into one dictionary per record, in order,
    with the record's segment and text and its label in decimal.  What
    the destination held before is gone. *)
Theorem saved_report_reads_back (transcriptions : list record) (output_file : string)
  (w w' : world) :
  save_to_csv transcriptions output_file w = (Return tt, w') ->
  last (console w') = Some (ResultsSaved output_file) ->
  exists rows,
    Lib.read_csv (Named output_file) w' = (Return rows, w') /\
    length (Lib.dict_reader rows) = length transcriptions /\
    forall (k : nat) (d : gmap string (option string)),
      Lib.dict_reader rows !! k = Some d ->
      exists r, transcriptions !! k = Some r /\ reads_back r d.
Proof.
  intros Hsave Hlast.
  apply (saved_message_inv _ _ _ _ Hsave) in Hlast.
  pose proof (save_block_name _ _ _ _ Hlast w') as Hstat.
  apply save_block_writes in Hlast as (Hfile & _).
  exists (report_rows transcriptions).
  split; [unfold Lib.read_csv; rewrite Hstat, Hfile; reflexivity|].
  rewrite dict_reader_report. split; [apply length_fmap|].
  intros k d Hk. rewrite list_lookup_fmap in Hk.
  destruct (transcriptions !! k) as [r|]; [|discriminate].
  injection Hk as <-. exists r. split; [reflexivity|].
  unfold reads_back. repeat split.
Qed.

Lemma saved_report_reads_back_witness :
  exists rows,
    Lib.read_csv (Named "free/out.csv")
      (snd (save_to_csv one_record "free/out.csv" locked_world))
      = (Return rows, snd (save_to_csv one_record "free/out.csv" locked_world)) /\
    length (Lib.dict_reader rows) = length one_record /\
    forall (k : nat) (d : gmap string (option string)),
      Lib.dict_reader rows !! k = Some d ->
      exists r, one_record !! k = Some r /\ reads_back r d.
Proof.
  apply (saved_report_reads_back one_record "free/out.csv" locked_world
           (snd (save_to_csv one_record "free/out.csv" locked_world))).
  - vm_compute. reflexivity.
  - vm_compute. reflexivity.
Defined.

(** ** Runs of [main] *)

(** A clip that is not there stops [main] at once: [FileNotFoundError],
    and nothing has been read, printed or created. *)
Theorem main_missing_video
  (whisper_model : AudioSegment -> string -> outcome string)
  (video_path output_csv profanity_csv language : string) (w : world) :
  Os.stat w (Named video_path) = None ->
  main whisper_model video_path output_csv profanity_csv language w
  = (Raise FileNotFoundError, w).
Proof.
  intros Hst. unfold main, bind, Os.exists_. rewrite Hst.
  rewrite bool_decide_eq_false_2 by (intros [? ?]; discriminate).
  reflexivity.
Qed.

Lemma main_missing_video_witness :
  main silent_engine "gone.mp4" "output/labels.csv" "none.csv" "en" clip_world
  = (Raise FileNotFoundError, clip_world).
Proof.
  apply (main_missing_video silent_engine "gone.mp4" "output/labels.csv" "none.csv" "en"
           clip_world).
  vm_compute. reflexivity.
Defined.

(** When the clip is there and the loader raises, [main] raises the same
    exception before any audio work: no temporary file has been made
    and nothing has been printed. *)
Theorem main_aborts_on_lexicon_failure
  (whisper_model : AudioSegment -> string -> outcome string)
  (video_path output_csv profanity_csv language : string)
  (w w1 : world) (f : file) (e : exn) :
  Os.stat w (Named video_path) = Some f ->
  load_profane_words_from_csv profanity_csv w = (Raise e, w1) ->
  main whisper_model video_path output_csv profanity_csv language w = (Raise e, w) /\
  w1 = w.
Proof.
  intros Hst Hload.
  assert (Hw : w1 = w) by apply (proj1 (load_only_prints_aux profanity_csv w w1) e Hload).
  subst w1. split; [|reflexivity].
  unfold main.
  erewrite bind_of_return;
    [|unfold Os.exists_; rewrite Hst, bool_decide_eq_true_2 by eauto; reflexivity].
  change (negb true) with false. cbv iota.
  apply bind_of_raise, Hload.
Qed.

Lemma main_aborts_on_lexicon_failure_witness :
  main silent_engine "words.csv" "output/labels.csv" "words.csv" "en" short_row_world
    = (Raise AttributeError, short_row_world) /\
  short_row_world = short_row_world.
Proof.
  apply (main_aborts_on_lexicon_failure silent_engine
           "words.csv" "output/labels.csv" "words.csv" "en"
           short_row_world short_row_world
           (Csv [["Word"; "Profanity"]; ["mild"; "Heck "]; ["strong"]]) AttributeError).
  - vm_compute. reflexivity.
  - vm_compute. reflexivity.
Defined.

(** When the clip has an audio track, the lexicon loads and the engine
    answers on every chunk, [main] returns and its last line is that it
    is done, whether the report was saved or not: the line before is the
    one line of [save_to_csv].  The engine was called once per chunk and
    the extracted audio is still in its temporary file. *)
Theorem main_reports_done_whatever_the_save
  (whisper_model : AudioSegment -> string -> outcome string)
  (video_path output_csv profanity_csv language : string)
  (w w1 : world) (a : AudioSegment) (profane_words : gset string)
  (chunks : list (Z * AudioSegment)) :
  Os.stat w (Named video_path) = Some (Video (Some a)) ->
  load_profane_words_from_csv profanity_csv w = (Return profane_words, w1) ->
  chunks_of a 5000 = Return chunks ->
  Forall (heard whisper_model language) chunks ->
  exists w' line,
    main whisper_model video_path output_csv profanity_csv language w = (Return tt, w') /\
    console w' =
      (console w1 ++ [ExtractingAudio; SplittingAudio; Transcribing; SavingResults;
                      line; Done])%list /\
    save_line output_csv line /\
    engine_calls w' = (engine_calls w ++ ((fun c => (snd c, language)) <$> chunks))%list /\
    next_temp w' = (next_temp w + 1 + length chunks)%nat /\
    files w' !! Temp (next_temp w) = Some (Audio a).
Proof.
  intros Hvideo Hload Hchunks Hall.
  destruct (load_frame _ _ _ _ Hload) as (_ & _ & Hn & He & _).
  destruct (after_chunks_frame language chunks (ready_world a w1)) as (Ae & Ac & _ & An & Af).
  destruct (save_to_csv_shape
              (records_of whisper_model profane_words language chunks) output_csv
              (printed SavingResults (after_chunks language chunks (ready_world a w1))))
    as (w2 & line & Hsave & Sc & Sl & _ & Sn & Se).
  exists (printed Done w2), line.
  split; [|split; [|split; [exact Sl|split; [|split]]]].
  - rewrite (main_reaches_loop whisper_model _ _ _ _ _ _ _ _ _ Hvideo Hload Hchunks).
    erewrite bind_of_return;
      [|apply (loop_all_heard whisper_model profane_words language _ Hall [] _)].
    erewrite bind_of_return; [|reflexivity].
    erewrite bind_of_return; [|exact Hsave].
    reflexivity.
  - simpl. rewrite Sc. simpl. rewrite Ac. simpl. rewrite <- !app_assoc. reflexivity.
  - simpl. rewrite Se. simpl. rewrite Ae. simpl. rewrite He. reflexivity.
  - simpl. rewrite Sn. simpl. rewrite An. simpl. lia.
  - simpl. rewrite (keeps_save_to_csv _ _ _ _ _ Hsave). simpl.
    rewrite Af by (intros n Hp; injection Hp as <-; simpl; lia).
    simpl. rewrite Hn. apply lookup_insert_eq.
Qed.

Lemma main_reports_done_whatever_the_save_witness :
  exists w' line,
    main silent_engine "clip.mp4" "labels.csv" "none.csv" "en" clip_world = (Return tt, w') /\
    console w' =
      (console (printed (LexiconNotFound "none.csv") clip_world) ++
       [ExtractingAudio; SplittingAudio; Transcribing; SavingResults; line; Done])%list /\
    save_line "labels.csv" line /\
    engine_calls w' =
      (engine_calls clip_world ++ ((fun c => (snd c, "en")) <$> [(0, silence 3000)]))%list /\
    next_temp w' = (next_temp clip_world + 1 + length [(0, silence 3000)])%nat /\
    files w' !! Temp (next_temp clip_world) = Some (Audio (silence 3000)).
Proof.
  apply (main_reports_done_whatever_the_save silent_engine
           "clip.mp4" "labels.csv" "none.csv" "en" clip_world
           (printed (LexiconNotFound "none.csv") clip_world) (silence 3000) ∅).
  - vm_compute. reflexivity.
  - vm_compute. reflexivity.
  - vm_compute. reflexivity.
  - repeat constructor. exists EmptyString. reflexivity.
Defined.

(** A clip without an audio track stops [main] with [AttributeError]
    right after the first progress line; the lexicon has been loaded and
    the empty temporary file made for the audio stays. *)
Theorem main_clip_without_audio
  (whisper_model : AudioSegment -> string -> outcome string)
  (video_path output_csv profanity_csv language : string)
  (w w1 : world) (profane_words : gset string) :
  Os.stat w (Named video_path) = Some (Video None) ->
  load_profane_words_from_csv profanity_csv w = (Return profane_words, w1) ->
  exists w',
    main whisper_model video_path output_csv profanity_csv language w
      = (Raise AttributeError, w') /\
    console w' = (console w1 ++ [ExtractingAudio])%list /\
    engine_calls w' = engine_calls w /\
    files w' !! Temp (next_temp w) = Some Blank.
Proof.
  intros Hvideo Hload.
  destruct (load_frame _ _ _ _ Hload) as (Hf & _ & Hn & He & _).
  eexists. split; [|split; [|split]].
  - unfold main.
    erewrite bind_of_return;
      [|unfold Os.exists_; rewrite Hvideo, bool_decide_eq_true_2 by eauto; reflexivity].
    change (negb true) with false. cbv iota.
    erewrite bind_of_return; [|exact Hload].
    unfold Os.named_temporary_file.
    erewrite bind_of_return; [|reflexivity].
    rewrite try_finally_nothing.
    erewrite bind_of_return; [|reflexivity].
    apply bind_of_raise.
    unfold extract_audio_from_video, Lib.write_audiofile.
    rewrite (stat_named w _ video_path), Hvideo; [reflexivity|].
    simpl. rewrite lookup_insert_ne by discriminate. rewrite Hf. reflexivity.
  - reflexivity.
  - simpl. exact He.
  - simpl. rewrite Hn. apply lookup_insert_eq.
Qed.

Lemma main_clip_without_audio_witness :
  exists w',
    main silent_engine "mute.mp4" "output/labels.csv" "none.csv" "en" mute_world
      = (Raise AttributeError, w') /\
    console w' = (console (printed (LexiconNotFound "none.csv") mute_world)
                  ++ [ExtractingAudio])%list /\
    engine_calls w' = engine_calls mute_world /\
    files w' !! Temp (next_temp mute_world) = Some Blank.
Proof.
  apply (main_clip_without_audio silent_engine
           "mute.mp4" "output/labels.csv" "none.csv" "en" mute_world
           (printed (LexiconNotFound "none.csv") mute_world) ∅).
  - vm_compute. reflexivity.
  - vm_compute. reflexivity.
Defined.

(** ** Whole seconds in segment names *)

Section WholeSeconds.

Lemma div_rne_exact (a b : Z) : 0 < b -> Py.div_rne (a * b) b = a.
Proof.
  intros Hb. unfold Py.div_rne.
  rewrite Z.div_mul, Z.mod_mul by lia.
  destruct (Z.ltb_spec (2 * 0) b); [reflexivity | lia].
Qed.

(** Below [2^53] a whole number of seconds is a binary64 number, and the
    division by 1000 finds it. *)
Lemma true_divide_whole (s : Z) :
  0 <= s < 2 ^ 53 ->
  exists den, 0 < den /\ Py.true_divide (1000 * s) 1000 = (s * den, den).
Proof.
  intros [Hlo Hhi]. unfold Py.true_divide.
  destruct (Z.eqb_spec (1000 * s) 0) as [Hz|Hnz].
  - exists 1. split; [lia|]. f_equal. lia.
  - assert (Hpos : 0 < 1000 * s) by lia.
    assert (Hlog : Z.log2 (1000 * s) < 63).
    { apply Z.log2_lt_pow2; [exact Hpos|].
      change (2 ^ 63) with (1024 * 2 ^ 53). lia. }
    change (Z.log2 1000) with 9.
    set (e := Z.log2 (1000 * s) - 9).
    assert (He : e <= 53) by (unfold e; lia).
    set (k := if Py.ge_pow2 (1000 * s) 1000 e then e else e - 1).
    assert (Hk : k <= 52).
    { unfold k. destruct (Py.ge_pow2 (1000 * s) 1000 e) eqn:Hge; [|lia].
      destruct (Z.eq_dec e 53) as [E53|]; [|lia].
      rewrite E53 in Hge. unfold Py.ge_pow2 in Hge. simpl Z.leb in Hge. cbv iota in Hge.
      apply Z.leb_le in Hge. lia. }
    destruct (Z.leb_spec 0 (k - 52)) as [Hge|Hlt].
    + replace (k - 52) with 0 by lia. exists 1. split; [lia|].
      change (2 ^ 0) with 1. rewrite !Z.mul_1_r.
      replace (1000 * s) with (s * 1000) by lia.
      rewrite div_rne_exact by lia. reflexivity.
    + exists (2 ^ (- (k - 52))).
      assert (Hden : 0 < 2 ^ (- (k - 52))) by (apply Z.pow_pos_nonneg; lia).
      split; [exact Hden|].
      replace (1000 * s * 2 ^ (- (k - 52))) with (s * 2 ^ (- (k - 52)) * 1000) by lia.
      rewrite div_rne_exact by lia. reflexivity.
Qed.

End WholeSeconds.

(** Whole seconds are printed exactly: for [s] seconds below [2^53] the
    text is [s] in decimal followed by [.0]; so the chunk that starts at
    [k * 5000] milliseconds and is a full window long gets the name of
    its two whole-second ends. *)
Theorem whole_seconds_print_exactly (s : Z) :
  0 <= s < 2 ^ 53 ->
  seconds_1f (1000 * s) = pretty s +:+ ".0" /\
  forall chunk : AudioSegment,
    Audio.len chunk = 5000 -> s + 5 < 2 ^ 53 ->
    segment_name (1000 * s) chunk
    = (pretty s +:+ ".0") +:+ "s - " +:+ (pretty (s + 5) +:+ ".0") +:+ "s".
Proof.
  intros Hs.
  assert (Hfmt : forall t, 0 <= t < 2 ^ 53 -> seconds_1f (1000 * t) = pretty t +:+ ".0").
  { intros t Ht. unfold seconds_1f.
    destruct (true_divide_whole t Ht) as (den & Hden & ->).
    unfold Py.format_1f. simpl fst. simpl snd.
    replace (10 * (t * den)) with (10 * t * den) by lia.
    rewrite div_rne_exact by exact Hden.
    replace (10 * t) with (t * 10) by lia.
    rewrite Z.div_mul, Z.mod_mul by lia. reflexivity. }
  split; [apply Hfmt, Hs|].
  intros chunk Hlen Hend. unfold segment_name.
  rewrite Hlen. replace (1000 * s + 5000) with (1000 * (s + 5)) by lia.
  rewrite (Hfmt s Hs), (Hfmt (s + 5)) by lia. reflexivity.
Qed.

Lemma whole_seconds_print_exactly_witness :
  seconds_1f (1000 * 5) = pretty 5 +:+ ".0" /\
  forall chunk : AudioSegment,
    Audio.len chunk = 5000 -> 5 + 5 < 2 ^ 53 ->
    segment_name (1000 * 5) chunk
    = (pretty 5 +:+ ".0") +:+ "s - " +:+ (pretty (5 + 5) +:+ ".0") +:+ "s".
Proof.
  apply (whole_seconds_print_exactly 5). lia.
Defined.

(** ** Where a moment of the stream lands *)


